(** * ng-simple-state: the base store and its dev-tool bridge

    A shallow embedding of [NgSimpleStateBaseStore]
    (projects/ng-simple-state/src/lib/ng-simple-state-base-store.ts) and of
    [NgSimpleStateDevTool], over a small model of the JavaScript heap:
    objects live at locations, values that are objects are references to
    them, and [Object.assign] copies own properties between locations.

    The store's methods are computations over a world (heap, dev tool,
    storage, trace of collaborator calls) that may throw.  What RxJS does is
    taken from its documentation: a [BehaviorSubject] holds its latest value
    and hands each new one to its subscriptions in order; [map] applies the
    selector; [distinctUntilChanged()] drops a value that is [===] to the
    previous one; [observeOn(asyncScheduler)] delivers later, in order.
    A completed subject keeps its value, hands nothing to anyone any more
    and completes a new subscription at once.  Unsubscription is not
    modelled. *)

From Stdlib Require Import Ascii String.
From stdpp Require Import gmap strings list fin_maps pretty.

Local Open Scope string_scope.
Local Open Scope list_scope.

(** ** JavaScript values and the heap *)

Abbreviation loc := nat.

(** A value is a primitive or a reference to a heap object.  Numbers are the
    integers; [NaN] and the signed zeros are outside the model.  A string is
    held as the bytes of its UTF-8 encoding, a surrogate that stands alone as
    the three bytes its code unit encodes to. *)
Inductive value :=
  | VUndefined
  | VNull
  | VBool (b : bool)
  | VNum (n : Z)
  | VStr (s : string)
  | VRef (l : loc).

#[global] Instance value_eq_dec : EqDecision value.
Proof. solve_decision. Defined.

(** Property keys: array indices and other names.  A [KName] is a name that
    is not a canonical array index and that is assigned like any other: the
    model has no prototypes and no accessors, so [__proto__], and [length]
    as a field copied into an array, are not among the names. *)
Inductive key :=
  | KIdx (i : nat)
  | KName (s : string).

#[global] Instance key_eq_dec : EqDecision key.
Proof. solve_decision. Defined.

#[global] Instance key_countable : Countable key.
Proof.
  refine (inj_countable'
            (λ k, match k with KIdx i => inl i | KName s => inr s end)
            (λ x, match x with inl i => KIdx i | inr s => KName s end) _).
  by intros [].
Defined.

(** An object: whether it is an exotic array object ([Array.isArray]), the
    [length] of an array (not an enumerable property; 0 and unused on other
    objects) and its own enumerable properties.  The elements of an array
    sit under [KIdx 0], [KIdx 1], ... below its length; an index below the
    length without a property is a hole. *)
Record obj := MkObj { isArr : bool; len : nat; props : gmap key value }.

(** One more than the greatest index among the keys, 0 when there is none:
    the least length an array with these properties can have. *)
Definition span (m : gmap key value) : nat :=
  map_fold (λ k _ n, match k with KIdx i => Nat.max (S i) n | KName _ => n end) 0 m.

(** The object with these properties and no hole after its last element:
    any record, and an array whose length is the span of its elements (as
    an array literal without a trailing hole has, and as an array has that
    was built from [[]] by assignments). *)
Definition Obj (array : bool) (m : gmap key value) : obj :=
  MkObj array (if array then span m else 0) m.

#[global] Instance obj_eq_dec : EqDecision obj.
Proof. solve_decision. Defined.

(** The heap is the sequence of objects allocated so far; a location is an
    index into it. *)
Abbreviation heap := (list obj).

Definition alloc (o : obj) (h : heap) : loc * heap := (List.length h, h ++ [o]).

(** [typeof v === 'boolean'] and friends, truthiness, [===], [Array.isArray]. *)
Definition truthy (v : value) : bool :=
  match v with
  | VUndefined | VNull => false
  | VBool b => b
  | VNum n => negb (Z.eqb n 0)
  | VStr s => negb (String.eqb s "")
  | VRef _ => true
  end.

Definition strict_eq (a b : value) : bool := bool_decide (a = b).

Definition Array_isArray (h : heap) (v : value) : bool :=
  match v with
  | VRef l => match h !! l with Some o => isArr o | None => false end
  | _ => false
  end.

Definition is_object (h : heap) (v : value) : bool :=
  match v with
  | VRef l => bool_decide (is_Some (h !! l))
  | _ => false
  end.

(** The three bytes of a code unit from [0x800] on. *)
Definition unit_bytes (u : N) : string :=
  String (ascii_of_N (224 + N.shiftr u 12))
    (String (ascii_of_N (128 + N.land (N.shiftr u 6) 63))
       (String (ascii_of_N (128 + N.land u 63)) EmptyString)).

(** The two surrogates of the character that four bytes encode. *)
Definition surrogates (a b c d : ascii) : string * string :=
  let cp := N.lor (N.shiftl (N.land (N_of_ascii a) 7) 18)
              (N.lor (N.shiftl (N.land (N_of_ascii b) 63) 12)
                 (N.lor (N.shiftl (N.land (N_of_ascii c) 63) 6)
                    (N.land (N_of_ascii d) 63))) in
  let v := (cp - 65536)%N in
  (unit_bytes (55296 + N.shiftr v 10), unit_bytes (56320 + N.land v 1023)).

(** Own enumerable properties that [Object.assign] reads from a source:
    those of an object, the code units of a string (one index for a
    character of one, two or three bytes, two for one of four), nothing for
    [undefined], [null], booleans and numbers. *)
Fixpoint chars_from (i : nat) (s : string) : gmap key value :=
  match s with
  | EmptyString => ∅
  | String a r =>
      let one := <[KIdx i := VStr (String a EmptyString)]> (chars_from (S i) r) in
      if (N_of_ascii a <? 192)%N then one
      else
        match r with
        | EmptyString => one
        | String b r2 =>
            if (N_of_ascii a <? 224)%N
            then <[KIdx i := VStr (String a (String b EmptyString))]>
                   (chars_from (S i) r2)
            else
              match r2 with
              | EmptyString => one
              | String c r3 =>
                  if (N_of_ascii a <? 240)%N
                  then <[KIdx i := VStr (String a (String b (String c EmptyString)))]>
                         (chars_from (S i) r3)
                  else
                    match r3 with
                    | EmptyString => one
                    | String d r4 =>
                        <[KIdx i := VStr (surrogates a b c d).1]>
                          (<[KIdx (S i) := VStr (surrogates a b c d).2]>
                             (chars_from (S (S i)) r4))
                    end
              end
        end
  end.

Definition own_props (h : heap) (v : value) : gmap key value :=
  match v with
  | VRef l => match h !! l with Some o => props o | None => ∅ end
  | VStr s => chars_from 0 s
  | _ => ∅
  end.

(** [target[k] = v] for every own enumerable property of a source: the
    properties are overwritten, and an array grows to hold the indices
    assigned. *)
Definition assign_props (src : gmap key value) (o : obj) : obj :=
  MkObj (isArr o)
        (if isArr o then Nat.max (len o) (span src) else len o)
        (src ∪ props o).

(** [Object.assign(target, ...sources)]: each source in turn overwrites the
    target's properties; the target object is mutated in place. *)
Definition assign_one (target : loc) (h : heap) (src : value) : heap :=
  alter (assign_props (own_props h src)) target h.

Definition Object_assign (target : loc) (sources : list value) (h : heap) : heap :=
  foldl (assign_one target) h sources.

(** The literals [[]] and [{}], a dense array literal and a record literal
    (a name written twice keeps its last value).  [new Array(n)], all
    holes, is [MkObj true n ∅]. *)
Definition empty_literal (array : bool) : obj := Obj array ∅.



Definition record_literal (fs : list (string * value)) : obj :=
  Obj false (foldl (λ m kv, <[KName kv.1 := kv.2]> m) ∅ fs).

(** [Object.assign(array ? [] : {}, ...sources)] on a fresh literal, the only
    way the store calls it. *)
Definition assign_fresh (array : bool) (sources : list value) (h : heap) : value * heap :=
  let '(t, h1) := alloc (empty_literal array) h in
  (VRef t, Object_assign t sources h1).

(** ** Caller-supplied functions

    A reducer, a selector or [initialState()] is arbitrary JavaScript.  What
    it can do to the heap is allocate objects, write or delete properties
    and set the length of an array; it cannot turn an object into an array
    or back.  A function is modelled by what it computes from its argument
    and the heap it reads: the heap actions it performs, in order, and the
    value it returns. *)
Inductive hact :=
  | HAlloc (o : obj)
  | HSet (l : loc) (k : key) (v : value)
  | HDelete (l : loc) (k : key)
  | HSetLength (l : loc) (n : nat).

(** [o[k] = v]: an array grows to hold an index assigned. *)
Definition set_prop (k : key) (v : value) (o : obj) : obj :=
  MkObj (isArr o)
        (match k with
         | KIdx i => if isArr o then Nat.max (len o) (S i) else len o
         | KName _ => len o
         end)
        (<[k := v]> (props o)).

Definition delete_prop (k : key) (o : obj) : obj :=
  MkObj (isArr o) (len o) (delete k (props o)).

(** [a.length = n] on an array: the elements from [n] on are dropped. *)
Definition below (n : nat) (k : key) : bool :=
  match k with KIdx i => Nat.ltb i n | KName _ => true end.

Definition set_length (n : nat) (o : obj) : obj :=
  if isArr o
  then MkObj true n (filter (λ kv : key * value, below n kv.1 = true) (props o))
  else o.

Definition apply_act (h : heap) (a : hact) : heap :=
  match a with
  | HAlloc o => h ++ [o]
  | HSet l k v => alter (set_prop k v) l h
  | HDelete l k => alter (delete_prop k) l h
  | HSetLength l n => alter (set_length n) l h
  end.

Definition apply_acts (h : heap) (acts : list hact) : heap := foldl apply_act h acts.

Definition jsfun := value → heap → list hact * value.

Definition call (f : jsfun) (arg : value) (h : heap) : value * heap :=
  let '(acts, r) := f arg h in (r, apply_acts h acts).

(** ** Strings: [split] on a one-byte separator and [trim] *)

(** The separators the code splits on are one-byte characters, and a byte
    below 128 is never part of the encoding of another character. *)

Fixpoint split (sep : ascii) (s : string) : list string :=
  match s with
  | EmptyString => [EmptyString]
  | String c r =>
      if Ascii.eqb c sep then EmptyString :: split sep r
      else match split sep r with
           | x :: xs => String c x :: xs
           | [] => [String c EmptyString]
           end
  end.

(** What [trim] strips is the white space and the line terminators of
    ECMAScript.  Among the one-byte characters: U+0009 to U+000D and
    U+0020. *)
Definition is_space (c : ascii) : bool :=
  let n := nat_of_ascii c in
  (Nat.leb 9 n && Nat.leb n 13) || Nat.eqb n 32.

(** Of two bytes: U+00A0. *)
Definition is_space2 (a b : ascii) : bool :=
  (N_of_ascii a =? 194)%N && (N_of_ascii b =? 160)%N.

(** Of three bytes: U+1680, U+2000 to U+200A, U+2028, U+2029, U+202F,
    U+205F, U+3000 and U+FEFF. *)
Definition is_space3 (a b c : ascii) : bool :=
  let x := N_of_ascii a in
  let y := N_of_ascii b in
  let z := N_of_ascii c in
  ((x =? 225) && (y =? 154) && (z =? 128)
   || (x =? 226) && (y =? 128)
      && ((128 <=? z) && (z <=? 138) || (z =? 168) || (z =? 169) || (z =? 175))
   || (x =? 226) && (y =? 129) && (z =? 159)
   || (x =? 227) && (y =? 128) && (z =? 128)
   || (x =? 239) && (y =? 187) && (z =? 191))%N.

(** The string begins with a character that [trim] strips. *)
Definition starts_space (s : string) : bool :=
  match s with
  | EmptyString => false
  | String a r =>
      is_space a
      || match r with
         | EmptyString => false
         | String b r2 =>
             is_space2 a b
             || match r2 with
                | EmptyString => false
                | String c _ => is_space3 a b c
                end
         end
  end.

(** A string of such characters only. *)
Fixpoint all_space (s : string) : bool :=
  match s with
  | EmptyString => true
  | String a r =>
      if is_space a then all_space r
      else
        match r with
        | EmptyString => false
        | String b r2 =>
            if is_space2 a b then all_space r2
            else
              match r2 with
              | EmptyString => false
              | String c r3 => if is_space3 a b c then all_space r3 else false
              end
        end
  end.

Fixpoint trim_start (s : string) : string :=
  match s with
  | EmptyString => EmptyString
  | String a r =>
      if is_space a then trim_start r
      else
        match r with
        | EmptyString => s
        | String b r2 =>
            if is_space2 a b then trim_start r2
            else
              match r2 with
              | EmptyString => s
              | String c r3 => if is_space3 a b c then trim_start r3 else s
              end
        end
  end.

(** The string up to the point from which only such characters follow. *)
Fixpoint trim_end (s : string) : string :=
  match s with
  | EmptyString => EmptyString
  | String c r => if all_space s then EmptyString else String c (trim_end r)
  end.

Definition trim (s : string) : string := trim_end (trim_start s).

(** ** The persistence adapter *)

(** A snapshot by value: the tree an object graph unfolds to. *)
#[warnings="-register-all"] Inductive tree :=
  | TLeaf (v : value)
  | TNode (array : bool) (fields : list (key * tree)).

(** Serialising follows references; [fuel] bounds the depth, so a cyclic
    graph has no snapshot. *)
Fixpoint snapshot (fuel : nat) (h : heap) (v : value) : option tree :=
  match fuel with
  | 0 => None
  | S n =>
      match v with
      | VRef l =>
          match h !! l with
          | Some o =>
              fs ← mapM (λ kv : key * value,
                           t ← snapshot n h kv.2; Some (kv.1, t))
                        (map_to_list (props o));
              Some (TNode (isArr o) fs)
          | None => None
          end
      | _ => Some (TLeaf v)
      end
  end.

#[global] Arguments snapshot : simpl never.

(** Parsing a snapshot allocates a fresh object graph. *)
Fixpoint restore (t : tree) (h : heap) : value * heap :=
  match t with
  | TLeaf v => (v, h)
  | TNode array fs =>
      let '(m, h1) :=
        (fix go (fs : list (key * tree)) (h : heap) : gmap key value * heap :=
           match fs with
           | [] => (∅, h)
           | kt :: r =>
               let '(v, h1) := restore kt.2 h in
               let '(m, h2) := go r h1 in
               (<[kt.1 := v]> m, h2)
           end) fs h in
      (VRef (List.length h1), h1 ++ [Obj array m])
  end.

(** ** The world around a store *)

(** [NgSimpleStateDevTool]: [isActiveDevtool], [instanceId] and the aggregate
    [baseState] keyed by store name.  The extension session itself
    ([localDevTool]) is outside; calls to it are recorded as events. *)
Record NgSimpleStateDevTool := DevTool {
  isActiveDevtool : bool;
  instanceId : string;
  baseState : gmap string value
}.

Inductive event :=
  | EvExtInit (base : gmap string value)
      (* localDevTool.init(baseState) *)
  | EvExtSend (label : string) (aggregate : gmap string value) (instance : string)
      (* localDevTool.send(label, aggregate, false, instanceId) *)
  | EvDevToolSend (storeName : string) (actionName : option string) (state : value)
      (* this.devTool.send(storeName, actionName, state) *)
  | EvSetItem (storeName : string) (state : value)
      (* this.localStorage.setItem(storeName, state) *)
  | EvNext (state : value).
      (* this.state$.next(state) *)

Record env := Env {
  mem : heap;
  devTool : NgSimpleStateDevTool;
  localStorage : gmap string tree;
  trace : list event
}.

Definition set_mem (h : heap) (e : env) : env :=
  Env h (devTool e) (localStorage e) (trace e).
Definition set_devTool (d : NgSimpleStateDevTool) (e : env) : env :=
  Env (mem e) d (localStorage e) (trace e).
Definition set_localStorage (s : gmap string tree) (e : env) : env :=
  Env (mem e) (devTool e) s (trace e).
Definition emit (ev : event) (e : env) : env :=
  Env (mem e) (devTool e) (localStorage e) (trace e ++ [ev]).

(** Computations that read and change the world and may throw; what was done
    before a throw stays done. *)
Inductive outcome (A : Type) :=
  | Ok (a : A)
  | Throw (err : string).
Arguments Ok {A} a.
Arguments Throw {A} err.

Definition M (A : Type) : Type := env → outcome A * env.

Definition ret {A} (a : A) : M A := λ e, (Ok a, e).
Definition throw {A} (err : string) : M A := λ e, (Throw err, e).
Definition bind {A B} (c : M A) (k : A → M B) : M B :=
  λ e, match c e with
       | (Ok a, e1) => k a e1
       | (Throw err, e1) => (Throw err, e1)
       end.
Definition lift_heap {A} (f : heap → A * heap) : M A :=
  λ e, let '(a, h1) := f (mem e) in (Ok a, set_mem h1 e).
Definition tell (ev : event) : M unit := λ e, (Ok tt, emit ev e).
Definition read_heap : M heap := λ e, (Ok (mem e), e).

Notation "'do' x <- c ; k" := (bind c (λ x, k))
  (at level 10, x name, c at level 100, k at level 200).
Notation "'do_' c ; k" := (bind c (λ _, k))
  (at level 10, c at level 100, k at level 200).

(** Modelled from the spec: [NgSimpleStateLocalStorage] (its source file is
    not part of the sources at hand).  "Key-value get/set of a serializable
    snapshot, keyed by container name": [getItem(key) -> S | undefined],
    [setItem(key, value) -> void]; the adapter receives a copy by value, and
    a failing write is dropped without an exception. *)
Definition LocalStorage_getItem (k : string) : M value :=
  λ e, match localStorage e !! k with
       | Some t => lift_heap (restore t) e
       | None => (Ok VUndefined, e)
       end.

Definition LocalStorage_setItem (k : string) (v : value) : M unit :=
  λ e, match snapshot (S (List.length (mem e))) (mem e) v with
       | Some t => (Ok tt, set_localStorage (<[k := t]> (localStorage e)) e)
       | None => (Ok tt, e)
       end.

(** ** NgSimpleStateDevTool *)

(** The constructor.  [globalDevtools] is [None] when the page has neither
    [__REDUX_DEVTOOLS_EXTENSION__] nor [devToolsExtension]; otherwise it says
    whether [connect] returns a session.  [now] is [Date.now()]. *)
Definition DevTool_constructor (globalDevtools : option bool) (now : Z)
  : NgSimpleStateDevTool * list event :=
  let id := "ng-simple-state-" +:+ pretty now in
  match globalDevtools with
  | Some true => (DevTool true id ∅, [EvExtInit ∅])
  | _ => (DevTool false id ∅, [])
  end.

Definition DevTool_isActive (d : NgSimpleStateDevTool) : bool := isActiveDevtool d.

(** A template literal prints [undefined] for a missing action name. *)
Definition template (actionName : option string) : string :=
  default "undefined" actionName.

Definition DevTool_send (storeName : string) (actionName : option string)
    (state : value) : M bool :=
  λ e,
    let d := devTool e in
    if isActiveDevtool d then
      let base := <[storeName := state]> (baseState d) in
      (Ok true,
       emit (EvExtSend (storeName +:+ "." +:+ template actionName) base (instanceId d))
            (set_devTool (DevTool true (instanceId d) base) e))
    else (Ok false, e).

(** ** NgSimpleStateBaseStore *)

Abbreviation config := (gmap string value).

(** What a concrete store class supplies: its name ([this.constructor.name]),
    its [storeConfig()] ([None] is the base class's [null]) and its
    [initialState()]. *)
Record store_class := StoreClass {
  className : string;
  storeConfig : option config;
  initialState : heap → list hact * value
}.

(** A selector given to [selectState]; without one the store installs
    [tmpState => Object.assign(this.isArray ? [] : {}, tmpState)]. *)
Definition apply_selector (array : bool) (selectFn : option jsfun)
    (state : value) (h : heap) : value * heap :=
  match selectFn with
  | Some f => call f state h
  | None => assign_fresh array [state] h
  end.

(** One subscription to [selectState(selectFn)]: the pipeline
    [map(selectFn), distinctUntilChanged(), observeOn(asyncScheduler)].
    [lastKey] is the key [distinctUntilChanged] holds ([None] before the first
    value); [delivered] are the values handed to the scheduler, oldest
    first. *)
Record subscriber := Subscriber {
  selectFn : option jsfun;
  lastKey : option value;
  delivered : list value
}.

(** [distinctUntilChanged()] without a comparator compares with [===]. *)
Definition distinct_next (v : value) (s : subscriber) : subscriber :=
  match lastKey s with
  | Some k =>
      if strict_eq k v then s
      else Subscriber (selectFn s) (Some v) (delivered s ++ [v])
  | None => Subscriber (selectFn s) (Some v) (delivered s ++ [v])
  end.

Definition observer_next (array : bool) (state : value) (s : subscriber)
    (h : heap) : subscriber * heap :=
  let '(v, h1) := apply_selector array (selectFn s) state h in
  (distinct_next v s, h1).

Fixpoint observers_next (array : bool) (state : value) (obs : list subscriber)
    (h : heap) : list subscriber * heap :=
  match obs with
  | [] => ([], h)
  | s :: r =>
      let '(s1, h1) := observer_next array state s h in
      let '(r1, h2) := observers_next array state r h1 in
      (s1 :: r1, h2)
  end.

(** The instance fields.  [state_] is the value the [BehaviorSubject]
    [state$] holds, [observers] its subscriptions made through
    [selectState], [isStopped] whether it was completed. *)
Record store := Store {
  cls : store_class;
  state_ : value;
  observers : list subscriber;
  localStorageIsEnabled : bool;
  devToolIsEnabled : bool;
  localStoreConfig : config;
  storeName : string;
  firstState : value;
  isArray : bool;
  isStopped : bool
}.

Definition set_subject (v : value) (obs : list subscriber) (s : store) : store :=
  Store (cls s) v obs (localStorageIsEnabled s) (devToolIsEnabled s)
        (localStoreConfig s) (storeName s) (firstState s) (isArray s)
        (isStopped s).

(** [this.state$.complete()]: the subject is stopped and lets go of its
    subscriptions; its value stays. *)
Definition subject_complete (s : store) : store :=
  Store (cls s) (state_ s) [] (localStorageIsEnabled s) (devToolIsEnabled s)
        (localStoreConfig s) (storeName s) (firstState s) (isArray s) true.

(** [new Error().stack.split('\n')[3].trim().split(' ')[1].split('.')[1]];
    [stack] is what [new Error().stack] evaluates to ([None]: the engine has
    no [stack] property).  Calling a method on [undefined] throws. *)
Definition infer_action_name (stack : option string) : outcome (option string) :=
  match stack with
  | None => Throw "TypeError"
  | Some s =>
      match split "010" s !! 3 with
      | None => Throw "TypeError"
      | Some line =>
          match split " " (trim line) !! 1 with
          | None => Throw "TypeError"
          | Some frame => Ok (split "." frame !! 1)
          end
      end
  end.

(** [!actionName]: a missing or empty label. *)
Definition no_label (actionName : option string) : bool :=
  match actionName with
  | None => true
  | Some a => String.eqb a ""
  end.

Definition devToolSend (enabled : bool) (name : string) (newState : value)
    (actionName : option string) (stack : option string) : M bool :=
  if negb enabled then ret false
  else
    do label <- (if no_label actionName
                 then (λ e, (infer_action_name stack, e))
                 else ret actionName);
    do_ tell (EvDevToolSend name label newState);
    DevTool_send name label newState.

(** [typeof x === 'boolean' ? x : false] and the like. *)
Definition boolean_or_false (v : option value) : bool :=
  match v with Some (VBool b) => b | _ => false end.

Definition string_or (d : string) (v : option value) : string :=
  match v with Some (VStr s) => s | _ => d end.

(** The constructor.  [provided] is the process-wide configuration the
    injector holds for [NG_SIMPLE_STORE_CONFIG], if any. *)
Definition constructor (c : store_class) (provided : option config) : M store :=
  let globalConfig := default ∅ provided in
  let storeConfig := default ∅ (storeConfig c) in
  let localStoreConfig : config := storeConfig ∪ globalConfig in
  let localStorageIsEnabled :=
    boolean_or_false (localStoreConfig !! "enableLocalStorage") in
  let devToolIsEnabled := boolean_or_false (localStoreConfig !! "enableDevTool") in
  let storeName := string_or (className c) (localStoreConfig !! "storeName") in
  do loaded <- (if localStorageIsEnabled then LocalStorage_getItem storeName
                else ret VUndefined);
  do firstState <- (if negb (truthy loaded)
                    then lift_heap (call (λ _, initialState c) VUndefined)
                    else ret loaded);
  do_ devToolSend devToolIsEnabled storeName firstState (Some "initialState") None;
  do h <- read_heap;
  let isArray := Array_isArray h firstState in
  do v <- lift_heap (assign_fresh isArray [firstState]);
  ret (Store c v [] localStorageIsEnabled devToolIsEnabled localStoreConfig
             storeName firstState isArray false).

Definition getCurrentState (this : store) : value := state_ this.

(** [this.state$.next(state)]: the subject takes the value and, unless it
    was completed, hands it to every subscription in turn. *)
Definition subject_next (state : value) (this : store) : M store :=
  do_ tell (EvNext state);
  if isStopped this then ret (set_subject state (observers this) this)
  else (do obs <- lift_heap (observers_next (isArray this) state (observers this));
        ret (set_subject state obs this)).

Definition setState (stateFn : jsfun) (actionName : option string)
    (stack : option string) (this : store) : M store :=
  let currState := getCurrentState this in
  do newState <- lift_heap (call stateFn currState);
  do state <- (if isArray this
               then lift_heap (assign_fresh true [newState])
               else lift_heap (assign_fresh false [currState; newState]));
  do_ devToolSend (devToolIsEnabled this) (storeName this) state actionName stack;
  do_ (if localStorageIsEnabled this
       then (do_ tell (EvSetItem (storeName this) state);
             LocalStorage_setItem (storeName this) state)
       else ret tt);
  subject_next state this.

Definition resetState (this : store) : M store :=
  setState (λ _ _, ([], firstState this)) (Some "resetState") None this.

Definition restartState (this : store) : M store :=
  setState (λ _, initialState (cls this)) (Some "restartState") None this.

(** [selectState(selectFn).subscribe(...)]: the subject hands its current
    value to the new subscription at once.  A completed subject completes
    the subscription at once instead: no value is handed over, the selector
    is not run and no subscription is kept. *)
Definition selectState (f : option jsfun) (this : store) : M store :=
  if isStopped this then ret this
  else
    do s <- lift_heap (observer_next (isArray this) (state_ this)
                         (Subscriber f None []));
    ret (set_subject (state_ this) (observers this ++ [s]) this).

(** ** Runs *)

(** What the code around a store does with it. [OpCaller f] is a caller that
    reads [getCurrentState()] and runs [f] on it. *)
Inductive op :=
  | OpSetState (stateFn : jsfun) (actionName : option string) (stack : option string)
  | OpResetState
  | OpRestartState
  | OpSelectState (f : option jsfun)
  | OpCaller (f : jsfun).

Definition exec_op (o : op) (this : store) : M store :=
  match o with
  | OpSetState f a st => setState f a st this
  | OpResetState => resetState this
  | OpRestartState => restartState this
  | OpSelectState f => selectState f this
  | OpCaller f =>
      do_ lift_heap (call f (getCurrentState this));
      ret this
  end.

(** A call that throws leaves the instance as it was; the caller goes on. *)
Definition step (o : op) (w : store * env) : store * env :=
  match exec_op o w.1 w.2 with
  | (Ok s, e) => (s, e)
  | (Throw _, e) => (w.1, e)
  end.

Definition run (ops : list op) (w : store * env) : store * env := foldl (flip step) w ops.

(** Structural (deep) equality of two values in a heap, to depth [fuel]. *)
Fixpoint deep_eq (fuel : nat) (h : heap) (a b : value) : bool :=
  match fuel with
  | 0 => false
  | S n =>
      match a, b with
      | VRef la, VRef lb =>
          match h !! la, h !! lb with
          | Some oa, Some ob =>
              Bool.eqb (isArr oa) (isArr ob)
              && (negb (isArr oa) || Nat.eqb (len oa) (len ob))
              && bool_decide (dom (props oa) = dom (props ob))
              && forallb (λ kv : key * value,
                            match props ob !! kv.1 with
                            | Some vb => deep_eq n h kv.2 vb
                            | None => false
                            end)
                         (map_to_list (props oa))
          | _, _ => false
          end
      | _, _ => strict_eq a b
      end
  end.

(** ** Notions used in the statements *)

(** The array-ness of every allocated object, by location. *)
Definition shapes (h : heap) : list bool := isArr <$> h.

(** [{...a, ...b, ...}] over an initial map: later sources win. *)
Definition spread (h : heap) (m : gmap key value) (sources : list value) : gmap key value :=
  foldl (λ m s, own_props h s ∪ m) m sources.

(** Whether the label of a write can be had without a throw: the dev tool is
    off, or a label was passed, or the stack has the expected frame. *)
Definition label_ok (enabled : bool) (actionName stack : option string) : bool :=
  negb enabled || negb (no_label actionName)
  || match infer_action_name stack with Ok _ => true | Throw _ => false end.

(** The label sent to the dev tool. *)
Definition action_label (actionName stack : option string) : option string :=
  if no_label actionName
  then match infer_action_name stack with Ok l => l | Throw _ => None end
  else actionName.

(** The state a write computes: the heap after the reducer ran, and the
    fresh object the merge builds there. *)
Definition merged (this : store) (stateFn : jsfun) (h : heap) : heap * obj :=
  let '(newState, h1) := call stateFn (state_ this) h in
  (h1, Obj (isArray this)
           (spread h1 ∅ (if isArray this then [newState]
                         else [state_ this; newState]))).

(** The side channels of a write, in the order of the calls. *)
Definition forward (enabled : bool) (name : string) (label : option string)
    (state : value) (e : env) : env :=
  if enabled
  then (DevTool_send name label state (emit (EvDevToolSend name label state) e)).2
  else e.

Definition persist (enabled : bool) (name : string) (state : value) (e : env) : env :=
  if enabled
  then (LocalStorage_setItem name state (emit (EvSetItem name state) e)).2
  else e.

(** What [next] hands to the subscriptions. *)
Definition deliver (this : store) (state : value) (h : heap) : list subscriber * heap :=
  if isStopped this then (observers this, h)
  else observers_next (isArray this) state (observers this) h.

#[global] Arguments deliver : simpl never.

Definition publish (this : store) (state : value) (e : env) : store * env :=
  let '(obs, h) := deliver this state (mem e) in
  (set_subject state obs this, set_mem h (emit (EvNext state) e)).

(** The events a write adds on each side channel. *)
Definition forward_events (enabled : bool) (name : string)
    (d : NgSimpleStateDevTool) (label : option string) (state : value) : list event :=
  if enabled
  then EvDevToolSend name label state
       :: (if isActiveDevtool d
           then [EvExtSend (name +:+ "." +:+ template label)
                           (<[name := state]> (baseState d)) (instanceId d)]
           else [])
  else [].

Definition persist_events (enabled : bool) (name : string) (state : value) : list event :=
  if enabled then [EvSetItem name state] else [].



(** A selector that only builds new objects: it writes to none that exists. *)
Definition allocates_only (f : jsfun) : Prop :=
  ∀ v h, Forall (λ a, ∃ o, a = HAlloc o) (f v h).1.

Definition pure_selector (f : option jsfun) : Prop :=
  match f with Some g => allocates_only g | None => True end.

Definition pure_observers (this : store) : Prop :=
  Forall (λ s, pure_selector (selectFn s)) (observers this).

(** The first state: the persisted snapshot when persistence is on and has
    a truthy one, else [initialState()]. *)
Definition first_loaded (init : heap → list hact * value) (enabled : bool)
    (name : string) (e : env) : value * env :=
  let '(loaded, e1) :=
    match (if enabled then localStorage e !! name else None) with
    | Some t => let '(v, h) := restore t (mem e) in (v, set_mem h e)
    | None => (VUndefined, e)
    end in
  if truthy loaded then (loaded, e1)
  else let '(v, h) := call (λ _, init) VUndefined (mem e1) in (v, set_mem h e1).

(** Every call on a store is a write through [setState], a subscription or
    code of the caller. *)
Definition reducer_of (o : op) (this : store) : option (jsfun * option string * option string) :=
  match o with
  | OpSetState f a st => Some (f, a, st)
  | OpResetState => Some (λ _ _, ([], firstState this), Some "resetState", None)
  | OpRestartState => Some (λ _, initialState (cls this), Some "restartState", None)
  | _ => None
  end.

(** The shape invariant of a store in a heap. *)
Definition shape_ok (this : store) (h : heap) : Prop :=
  ∃ l, state_ this = VRef l ∧ shapes h !! l = Some (isArray this).

(** No two consecutive deliveries are [===]. *)
Definition consecutive_distinct (l : list value) : Prop :=
  ∀ i a b, l !! i = Some a → l !! S i = Some b → strict_eq a b = false.

(** The key [distinctUntilChanged] holds is the last value delivered. *)
Definition sub_ok (s : subscriber) : Prop :=
  lastKey s = last (delivered s) ∧ consecutive_distinct (delivered s).

Definition set_cls (c : store_class) (s : store) : store :=
  Store c (state_ s) (observers s) (localStorageIsEnabled s) (devToolIsEnabled s)
        (localStoreConfig s) (storeName s) (firstState s) (isArray s)
        (isStopped s).

(** The states published to the subject, oldest first. *)
Definition transitions (tr : list event) : list value :=
  omap (λ ev, match ev with EvNext v => Some v | _ => None end) tr.

(** A call whose label needs no introspection, or whose introspection
    finds a frame. *)
Definition op_labelled (o : op) : bool :=
  match o with
  | OpSetState _ a st =>
      negb (no_label a)
      || match infer_action_name st with Ok _ => true | Throw _ => false end
  | _ => true
  end.

(** The class with both collaborators switched by its own [storeConfig()]. *)
Definition with_flags (ls dt : bool) (c : store_class) : store_class :=
  StoreClass (className c)
    (Some (<["enableLocalStorage" := VBool ls]>
             (<["enableDevTool" := VBool dt]> (default ∅ (storeConfig c)))))
    (initialState c).

(** The name a store of class [c] gets. *)
Definition resolved_name (c : store_class) (provided : option config) : string :=
  string_or (className c)
    ((default ∅ (storeConfig c) ∪ default ∅ provided) !! "storeName").

(** Two runs that agree on everything but the side channels. *)
Definition same_subject (w1 w2 : store * env) : Prop :=
  state_ w1.1 = state_ w2.1
  ∧ observers w1.1 = observers w2.1
  ∧ firstState w1.1 = firstState w2.1
  ∧ isArray w1.1 = isArray w2.1
  ∧ initialState (cls w1.1) = initialState (cls w2.1)
  ∧ isStopped w1.1 = isStopped w2.1
  ∧ mem w1.2 = mem w2.2
  ∧ transitions (trace w1.2) = transitions (trace w2.2).

(** ** Concrete stores *)

(** [() => ({ ...fields })] and [() => [ ...elements ]]: a function that
    returns a fresh literal. *)
Definition fresh_record (fs : list (string * value)) : heap → list hact * value :=
  λ h, ([HAlloc (record_literal fs)], VRef (List.length h)).


(** The world after [new C(injector)]. *)
Definition built (c : store_class) (provided : option config) (e : env) : store * env :=
  match constructor c provided e with
  | (Ok s, e') => (s, e')
  | (Throw _, e') =>
      (Store c VUndefined [] false false ∅ EmptyString VUndefined false false, e')
  end.

(** A page with the Redux DevTools extension and empty storage. *)
Definition page : env := Env [] (DevTool_constructor (Some true) 0).1 ∅ [].

(** [class CounterStore { initialState() { return { count: 0 }; } }] *)
Definition CounterStore : store_class :=
  StoreClass "CounterStore" None (fresh_record [("count", VNum 0)]).

(** [s => ({ count: s.count + 1 })] *)
Definition increment : jsfun :=
  λ s h,
    match own_props h s !! KName "count" with
    | Some (VNum n) => fresh_record [("count", VNum (n + 1))] h
    | _ => fresh_record [("count", VUndefined)] h
    end.


(** [class FormStore { initialState() { return { a: 1 }; } }] for a state
    type [{ a: number; b?: number }]. *)
Definition FormStore : store_class :=
  StoreClass "FormStore" None (fresh_record [("a", VNum 1)]).

(** A page whose storage holds [{ count: 5 }] for [CounterStore]. *)
Definition page_with_snapshot : env :=
  Env [] (DevTool_constructor (Some true) 0).1
      {["CounterStore" := TNode false [(KName "count", TLeaf (VNum 5))]]} [].

(** [const s = store.getCurrentState(); s.count = 99;] *)
Definition overwrite_count : jsfun :=
  λ s _, match s with
         | VRef l => ([HSet l (KName "count") (VNum 99)], VUndefined)
         | _ => ([], VUndefined)
         end.



Definition count_of (w : store * env) : option value :=
  own_props (mem w.2) (getCurrentState w.1) !! KName "count".

(** No two consecutive values are structurally equal (to depth [fuel]). *)
Definition deep_distinct (fuel : nat) (h : heap) (l : list value) : Prop :=
  ∀ i a b, l !! i = Some a → l !! S i = Some b → deep_eq fuel h a b = false.

(** ** Teardown *)

(** [ngOnDestroy()]: a last notification to the dev tool, then
    [this.state$.complete()].  A completed subject lets go of its
    subscriptions, which receive nothing more, and keeps its value; a later
    [next] still stores the value it is given, and a later subscription is
    completed at once. *)
Definition ngOnDestroy (this : store) : M store :=
  do_ devToolSend (devToolIsEnabled this) (storeName this) VUndefined
        (Some "ngOnDestroy") None;
  ret (subject_complete this).

(** The world after [store.ngOnDestroy()]. *)
Definition destroyed (w : store * env) : store * env :=
  match ngOnDestroy w.1 w.2 with
  | (Ok s, e') => (s, e')
  | (Throw _, e') => (w.1, e')
  end.

(** ** Further notions used in the statements *)

(** A subscription seen later: the same selector, and the deliveries made
    so far still at the front. *)
Definition sub_extends (s s' : subscriber) : Prop :=
  selectFn s' = selectFn s ∧ delivered s `prefix_of` delivered s'.

(** How often a character occurs in a string. *)
Fixpoint count_char (c : ascii) (s : string) : nat :=
  match s with
  | EmptyString => 0
  | String a r => (if Ascii.eqb a c then 1 else 0) + count_char c r
  end.

(** [pieces.join(sep)] for a one-character separator. *)
Fixpoint join (sep : ascii) (pieces : list string) : string :=
  match pieces with
  | [] => EmptyString
  | [p] => p
  | p :: r => p +:+ String sep (join sep r)
  end.

(** A string without white space: no character that [trim] strips begins
    anywhere in it. *)
Fixpoint no_space (s : string) : bool :=
  match s with
  | EmptyString => true
  | String _ r => negb (starts_space s) && no_space r
  end.

(** U+00A0, the no-break space. *)
Definition nbsp : string :=
  String (ascii_of_N 194) (String (ascii_of_N 160) EmptyString).

(** Every subscription without a selector holds, as its last key, a
    reference to an object of the heap. *)
Definition keys_below (h : heap) (obs : list subscriber) : Prop :=
  Forall (λ s, selectFn s = None →
               ∃ l, lastKey s = Some (VRef l) ∧ l < List.length h) obs.

(** What one publication does to a subscription without a selector: one
    more delivery, a reference to an object allocated by the publication. *)
Definition delivers_copy (h : heap) (s s' : subscriber) : Prop :=
  selectFn s = None →
  ∃ l, delivered s' = delivered s ++ [VRef l] ∧ (List.length h ≤ l)%nat.

(** * Properties *)

(** ** Examples of the helpers *)

Example split_example : split " " "at Foo.bar (x.ts:1)" = ["at"; "Foo.bar"; "(x.ts:1)"].
Proof. reflexivity. Qed.

Example trim_example : trim "    at Foo.bar  " = "at Foo.bar".
Proof. reflexivity. Qed.

Example trim_nbsp_example : trim (nbsp +:+ " x " +:+ nbsp) = "x".
Proof. reflexivity. Qed.

Example trim_inner_example : trim (" a" +:+ nbsp +:+ "b ") = "a" +:+ nbsp +:+ "b".
Proof. reflexivity. Qed.

(** [Object.assign({}, s)] for [s] of an [a] and U+1F600: three code units. *)
Example chars_from_example :
  let s := String "a" (String (ascii_of_N 240) (String (ascii_of_N 159)
             (String (ascii_of_N 152) (String (ascii_of_N 128) EmptyString)))) in
  chars_from 0 s !! KIdx 0 = Some (VStr "a")
  ∧ chars_from 0 s !! KIdx 1 = Some (VStr (unit_bytes 55357))
  ∧ chars_from 0 s !! KIdx 2 = Some (VStr (unit_bytes 56832))
  ∧ chars_from 0 s !! KIdx 3 = None.
Proof. repeat split; vm_compute; reflexivity. Qed.

Example assign_example :
  assign_fresh false [VRef 0; VRef 1]
    [record_literal [("a", VNum 1); ("b", VNum 2)]; record_literal [("b", VNum 3)]]
  = (VRef 2,
     [record_literal [("a", VNum 1); ("b", VNum 2)]; record_literal [("b", VNum 3)];
      record_literal [("a", VNum 1); ("b", VNum 3)]]).
Proof. vm_compute. reflexivity. Qed.

(** ** The heap *)

Lemma span_step_comm (j1 j2 : key) (n : nat) :
  match j1 with
  | KIdx i => Nat.max (S i) (match j2 with KIdx i' => Nat.max (S i') n | KName _ => n end)
  | KName _ => match j2 with KIdx i' => Nat.max (S i') n | KName _ => n end
  end
  = match j2 with
    | KIdx i' => Nat.max (S i') (match j1 with KIdx i => Nat.max (S i) n | KName _ => n end)
    | KName _ => match j1 with KIdx i => Nat.max (S i) n | KName _ => n end
    end.
Proof. destruct j1, j2; lia. Qed.

Lemma span_insert k v (m : gmap key value) :
  m !! k = None →
  span (<[k := v]> m) = match k with KIdx i => Nat.max (S i) (span m) | KName _ => span m end.
Proof.
  intros Hk. unfold span. rewrite map_fold_insert_L; [done| |done].
  intros j1 j2 z1 z2 y _ _ _. apply span_step_comm.
Qed.

(** The span bounds exactly the indices that have a property. *)
Lemma span_le (m : gmap key value) n :
  (span m ≤ n)%nat ↔ ∀ i, is_Some (m !! KIdx i) → (i < n)%nat.
Proof.
  induction m as [|k v m Hk IH] using map_ind.
  - unfold span. rewrite map_fold_empty. split; [|lia].
    intros _ i [x Hx]. by rewrite lookup_empty in Hx.
  - rewrite (span_insert _ _ _ Hk). split.
    + intros Hle i [x Hx]. destruct (decide (k = KIdx i)) as [->|Hne]; [lia|].
      rewrite lookup_insert_ne in Hx by done.
      apply IH; [destruct k; lia|eauto].
    + intros Hall.
      assert (span m ≤ n)%nat as Hm.
      { apply IH. intros i [x Hx]. apply Hall. exists x.
        rewrite lookup_insert_ne; [done|]. intros ->. congruence. }
      destruct k as [i|s]; [|done].
      specialize (Hall i). rewrite lookup_insert_eq in Hall.
      specialize (Hall (ltac:(eauto))). lia.
Qed.

Lemma span_union (m1 m2 : gmap key value) :
  span (m1 ∪ m2) = Nat.max (span m1) (span m2).
Proof.
  apply Nat.le_antisymm.
  - apply span_le. intros i [x Hx]. apply lookup_union_Some_raw in Hx.
    destruct Hx as [Hx|[_ Hx]].
    + assert (i < span m1)%nat; [|lia]. by apply (proj1 (span_le m1 (span m1))); eauto.
    + assert (i < span m2)%nat; [|lia]. by apply (proj1 (span_le m2 (span m2))); eauto.
  - apply Nat.max_lub.
    + apply span_le. intros i [x Hx].
      apply (proj1 (span_le (m1 ∪ m2) (span (m1 ∪ m2)))); [done|].
      exists x. by apply lookup_union_Some_l.
    + apply span_le. intros i [x Hx].
      apply (proj1 (span_le (m1 ∪ m2) (span (m1 ∪ m2)))); [done|].
      destruct (m1 !! KIdx i) as [y|] eqn:E.
      * exists y. by apply lookup_union_Some_l.
      * exists x. by rewrite lookup_union_r.
Qed.

Lemma span_empty : span ∅ = 0.
Proof. unfold span. by rewrite map_fold_empty. Qed.

(** Assigning to an object without a trailing hole leaves none. *)
Lemma assign_props_Obj src a m : assign_props src (Obj a m) = Obj a (src ∪ m).
Proof.
  unfold assign_props, Obj. cbn [isArr len props]. destruct a; [|done].
  by rewrite span_union, Nat.max_comm.
Qed.

Lemma shapes_alter (g : obj → obj) l (h : heap) :
  (∀ o, isArr (g o) = isArr o) → shapes (alter g l h) = shapes h.
Proof.
  intros Hg. unfold shapes. apply list_eq. intros i.
  rewrite !list_lookup_fmap.
  destruct (decide (l = i)) as [->|Hne].
  - rewrite list_lookup_alter_eq. destruct (h !! i); [|done]. simpl. by rewrite Hg.
  - by rewrite list_lookup_alter_ne.
Qed.

Lemma shapes_apply_act h a : shapes h `prefix_of` shapes (apply_act h a).
Proof.
  destruct a as [o|l k v|l k|l n]; cbn [apply_act].
  - unfold shapes. rewrite fmap_app. by apply prefix_app_r.
  - by rewrite shapes_alter.
  - by rewrite shapes_alter.
  - rewrite shapes_alter; [done|]. intros o. unfold set_length.
    by destruct (isArr o) eqn:E.
Qed.

Lemma shapes_apply_acts acts h : shapes h `prefix_of` shapes (apply_acts h acts).
Proof.
  revert h. induction acts as [|a acts IH]; intros h; simpl; [done|].
  etrans; [apply shapes_apply_act | apply IH].
Qed.

Lemma shapes_call f v h : shapes h `prefix_of` shapes (call f v h).2.
Proof. unfold call. destruct (f v h) as [acts r]. apply shapes_apply_acts. Qed.

Lemma Array_isArray_shapes h v :
  Array_isArray h v = match v with VRef l => default false (shapes h !! l) | _ => false end.
Proof.
  destruct v; simpl; try done. unfold shapes. rewrite list_lookup_fmap.
  by destruct (h !! l).
Qed.

(** Reading a source after the fresh target was allocated: the only
    location whose properties differ is the target's own. *)
Lemma own_props_fresh (h : heap) a (m : gmap key value) v :
  own_props (h ++ [Obj a m]) v ∪ m = own_props h v ∪ m.
Proof.
  destruct v as [| | | | |l]; simpl; try done.
  destruct (decide (l < List.length h)) as [Hlt|Hge].
  - by rewrite lookup_app_l.
  - rewrite lookup_app_r by lia. rewrite (lookup_ge_None_2 h l) by lia.
    destruct (l - List.length h) as [|n] eqn:E; simpl.
    + by rewrite map_union_idemp, (left_id_L ∅ (∪)).
    + by rewrite ?lookup_nil.
Qed.

Lemma Object_assign_fresh sources (h : heap) a m :
  Object_assign (List.length h) sources (h ++ [Obj a m])
  = h ++ [Obj a (spread h m sources)].
Proof.
  unfold Object_assign. revert m.
  induction sources as [|s r IH]; intros m; cbn [foldl]; [done|].
  assert (assign_one (List.length h) (h ++ [Obj a m]) s
          = h ++ [Obj a (own_props h s ∪ m)]) as ->; [|apply IH].
  unfold assign_one.
  replace (List.length h) with (List.length h + 0) at 1 by lia.
  rewrite alter_app_r. cbn [alter list_alter]. rewrite assign_props_Obj.
  by rewrite own_props_fresh.
Qed.

Lemma assign_fresh_eq array sources (h : heap) :
  assign_fresh array sources h
  = (VRef (List.length h), h ++ [Obj array (spread h ∅ sources)]).
Proof. unfold assign_fresh, alloc, empty_literal. by rewrite Object_assign_fresh. Qed.

(** ** setState, step by step *)

Lemma DevTool_send_ok n l v e : ∃ b, (DevTool_send n l v e).1 = Ok b.
Proof. unfold DevTool_send. destruct (isActiveDevtool (devTool e)); eauto. Qed.

Lemma LocalStorage_setItem_ok n v e : (LocalStorage_setItem n v e).1 = Ok tt.
Proof. unfold LocalStorage_setItem. by destruct (snapshot _ _ _). Qed.

Lemma devToolSend_eq enabled name state a stack e :
  match devToolSend enabled name state a stack e with
  | (Ok _, e') =>
      label_ok enabled a stack = true
      ∧ e' = forward enabled name (action_label a stack) state e
  | (Throw err, e') =>
      label_ok enabled a stack = false ∧ err = "TypeError" ∧ e' = e
  end.
Proof.
  unfold devToolSend, label_ok, action_label, forward.
  destruct enabled; simpl; [|done].
  unfold bind at 1.
  destruct (no_label a); simpl.
  - destruct (infer_action_name stack) as [lab|err] eqn:Hinf.
    + unfold bind, tell.
      destruct (DevTool_send_ok name lab state
                  (emit (EvDevToolSend name lab state) e)) as [b Hb].
      destruct (DevTool_send _ _ _ _) as [r e3]. simpl in Hb. by subst r.
    + split; [done|]. split; [|done].
      unfold infer_action_name in Hinf.
      repeat case_match; congruence.
  - unfold bind, tell, ret.
    destruct (DevTool_send_ok name a state
                (emit (EvDevToolSend name a state) e)) as [b Hb].
    destruct (DevTool_send _ _ _ _) as [r e3]. simpl in Hb. by subst r.
Qed.

Lemma subject_next_eq this state e :
  subject_next state this e
  = let '(this', e') := publish this state e in (Ok this', e').
Proof.
  unfold subject_next, publish, deliver, bind, tell.
  destruct (isStopped this); [done|].
  unfold bind, lift_heap, ret. simpl.
  by destruct (observers_next _ _ _ _).
Qed.

Lemma setState_eq f a stack this e :
  setState f a stack this e =
    let '(h1, o) := merged this f (mem e) in
    let state := VRef (List.length h1) in
    let e2 := set_mem (h1 ++ [o]) e in
    if label_ok (devToolIsEnabled this) a stack
    then
      let '(this', e') :=
        publish this state
          (persist (localStorageIsEnabled this) (storeName this) state
             (forward (devToolIsEnabled this) (storeName this)
                (action_label a stack) state e2)) in
      (Ok this', e')
    else (Throw "TypeError", e2).
Proof.
  unfold setState, merged, getCurrentState, bind at 1, lift_heap at 1.
  destruct (call f (state_ this) (mem e)) as [newState h1] eqn:Hcall.
  set (srcs := if isArray this then [newState] else [state_ this; newState]).
  set (o := Obj (isArray this) (spread h1 ∅ srcs)).
  assert ((if isArray this
           then lift_heap (assign_fresh true [newState])
           else lift_heap (assign_fresh false [state_ this; newState])) (set_mem h1 e)
          = (Ok (VRef (List.length h1)), set_mem (h1 ++ [o]) e)) as Hmerge.
  { unfold o, srcs, lift_heap. destruct (isArray this); simpl mem;
      by rewrite assign_fresh_eq. }
  unfold bind at 1. rewrite Hmerge. clear Hmerge.
  set (state := VRef (List.length h1)). set (e2 := set_mem (h1 ++ [o]) e).
  cbv zeta. unfold bind at 1.
  pose proof (devToolSend_eq (devToolIsEnabled this) (storeName this)
                state a stack e2) as Hdev.
  destruct (devToolSend _ _ _ _ _ _) as [[b|err] e3].
  - destruct Hdev as [-> ->].
    set (e3 := forward (devToolIsEnabled this) (storeName this)
                 (action_label a stack) state e2).
    unfold bind at 1, persist.
    destruct (localStorageIsEnabled this).
    + unfold bind at 1, tell.
      pose proof (LocalStorage_setItem_ok (storeName this) state
                    (emit (EvSetItem (storeName this) state) e3)) as Hset.
      destruct (LocalStorage_setItem _ _ _) as [r e4]. simpl in Hset. subst r.
      simpl. apply subject_next_eq.
    + unfold ret. apply subject_next_eq.
  - by destruct Hdev as (-> & -> & ->).
Qed.

Lemma mem_forward en n l s e : mem (forward en n l s e) = mem e.
Proof.
  unfold forward, DevTool_send. destruct en; [|done].
  simpl. by destruct (isActiveDevtool (devTool e)).
Qed.

Lemma mem_persist en n s e : mem (persist en n s e) = mem e.
Proof.
  unfold persist, LocalStorage_setItem. destruct en; [|done].
  simpl. by destruct (snapshot _ _ _).
Qed.

Lemma trace_forward en n l s e :
  trace (forward en n l s e) = trace e ++ forward_events en n (devTool e) l s.
Proof.
  unfold forward, forward_events, DevTool_send.
  destruct en; [|by rewrite app_nil_r].
  simpl. destruct (isActiveDevtool (devTool e)); simpl; [|done].
  by rewrite <- app_assoc.
Qed.

Lemma trace_persist en n s e :
  trace (persist en n s e) = trace e ++ persist_events en n s.
Proof.
  unfold persist, persist_events, LocalStorage_setItem.
  destruct en; [|by rewrite app_nil_r].
  simpl. by destruct (snapshot _ _ _).
Qed.

Lemma devTool_persist en n s e : devTool (persist en n s e) = devTool e.
Proof.
  unfold persist, LocalStorage_setItem. destruct en; [|done].
  simpl. by destruct (snapshot _ _ _).
Qed.

Lemma publish_eq this state e :
  publish this state e
  = (set_subject state (deliver this state (mem e)).1 this,
     Env (deliver this state (mem e)).2
         (devTool e) (localStorage e) (trace e ++ [EvNext state])).
Proof. unfold publish. by destruct (deliver _ _ _). Qed.

(** ** Subscriptions *)

Lemma apply_acts_alloc acts (h : heap) :
  Forall (λ a, ∃ o, a = HAlloc o) acts → h `prefix_of` apply_acts h acts.
Proof.
  revert h. induction acts as [|a acts IH]; intros h Hall; simpl; [done|].
  inversion Hall as [|? ? [o ->] Hrest]; subst. simpl.
  etrans; [|apply IH; done]. by apply prefix_app_r.
Qed.

Lemma apply_selector_prefix array f state (h : heap) :
  pure_selector f → h `prefix_of` (apply_selector array f state h).2.
Proof.
  destruct f as [g|]; cbn [apply_selector pure_selector]; intros Hp.
  - unfold call. specialize (Hp state h). destruct (g state h) as [acts r].
    by apply apply_acts_alloc.
  - rewrite assign_fresh_eq. simpl. by apply prefix_app_r.
Qed.

Lemma observers_next_prefix array state obs (h : heap) :
  Forall (λ s, pure_selector (selectFn s)) obs →
  h `prefix_of` (observers_next array state obs h).2.
Proof.
  revert h. induction obs as [|s r IH]; intros h Hall; simpl; [done|].
  inversion Hall as [|? ? Hs Hr]; subst.
  unfold observer_next.
  pose proof (apply_selector_prefix array (selectFn s) state h Hs) as H1.
  destruct (apply_selector array (selectFn s) state h) as [v h1]. simpl in H1.
  pose proof (IH h1 Hr) as H2.
  destruct (observers_next array state r h1) as [r1 h2]. simpl in *.
  by etrans.
Qed.

Lemma deliver_prefix this state (h : heap) :
  pure_observers this → h `prefix_of` (deliver this state h).2.
Proof.
  intros Hpure. unfold deliver. destruct (isStopped this); [done|].
  by apply observers_next_prefix.
Qed.

(** ** The merge laws *)

Lemma spread_two h (a b : value) :
  spread h ∅ [a; b] = own_props h b ∪ own_props h a.
Proof. unfold spread. simpl. by rewrite (right_id_L ∅ (∪)). Qed.

Lemma spread_one h (a : value) : spread h ∅ [a] = own_props h a.
Proof. unfold spread. simpl. by rewrite (right_id_L ∅ (∪)). Qed.

(** What a completed write leaves: the subject holds a reference to the
    fresh object the merge built, and the heap still has it there. *)
Lemma setState_result f a stack this e :
  pure_observers this →
  label_ok (devToolIsEnabled this) a stack = true →
  ∃ this' e',
    setState f a stack this e = (Ok this', e')
    ∧ getCurrentState this' = VRef (List.length (merged this f (mem e)).1)
    ∧ (merged this f (mem e)).1 `prefix_of` mem e'
    ∧ mem e' !! List.length (merged this f (mem e)).1 = Some (merged this f (mem e)).2.
Proof.
  intros Hpure Hlab. rewrite setState_eq.
  destruct (merged this f (mem e)) as [h1 o]. cbv zeta. rewrite Hlab.
  rewrite publish_eq, mem_persist, mem_forward. simpl mem.
  eexists _, _. split; [done|]. split; [done|]. simpl.
  pose proof (deliver_prefix this (VRef (List.length h1)) (h1 ++ [o]) Hpure) as Hpre.
  split.
  - etrans; [|exact Hpre]. by apply prefix_app_r.
  - eapply prefix_lookup_Some; [|exact Hpre].
    by rewrite lookup_app_r, Nat.sub_diag by lia.
Qed.



(** [selectState()] without a selector hands every subscriber a fresh copy
    of the state, never the subject's own object. *)
Lemma default_selector_copies array state (h : heap) :
  apply_selector array None state h
  = (VRef (List.length h), h ++ [Obj array (own_props h state)]).
Proof. cbn [apply_selector]. by rewrite assign_fresh_eq, spread_one. Qed.



(** ** The constructor *)

Lemma constructor_eq c p e :
  constructor c p e =
    let cfg : config := default ∅ (storeConfig c) ∪ default ∅ p in
    let ls := boolean_or_false (cfg !! "enableLocalStorage") in
    let dt := boolean_or_false (cfg !! "enableDevTool") in
    let name := string_or (className c) (cfg !! "storeName") in
    let '(first, e1) := first_loaded (initialState c) ls name e in
    let e2 := forward dt name (Some "initialState") first e1 in
    let arr := Array_isArray (mem e1) first in
    (Ok (Store c (VRef (List.length (mem e1))) [] ls dt cfg name first arr false),
     set_mem (mem e1 ++ [Obj arr (own_props (mem e1) first)]) e2).
Proof.
  unfold constructor. cbv zeta.
  set (cfg := default ∅ (storeConfig c) ∪ default ∅ p).
  set (ls := boolean_or_false (cfg !! "enableLocalStorage")).
  set (dt := boolean_or_false (cfg !! "enableDevTool")).
  set (name := string_or (className c) (cfg !! "storeName")).
  unfold first_loaded, bind at 1.
  assert ((if ls then LocalStorage_getItem name else ret VUndefined) e
          = let '(loaded, e1) :=
              match (if ls then localStorage e !! name else None) with
              | Some t => let '(v, h) := restore t (mem e) in (v, set_mem h e)
              | None => (VUndefined, e)
              end in (Ok loaded, e1)) as ->.
  { destruct ls; [|done]. unfold LocalStorage_getItem, lift_heap.
    destruct (localStorage e !! name); [|done]. by destruct (restore _ _). }
  destruct (match (if ls then localStorage e !! name else None) with
            | Some t => let '(v, h) := restore t (mem e) in (v, set_mem h e)
            | None => (VUndefined, e)
            end) as [loaded e0].
  unfold bind at 1.
  assert ((if negb (truthy loaded)
           then lift_heap (call (λ _, initialState c) VUndefined)
           else ret loaded) e0
          = let '(first, e1) :=
              if truthy loaded then (loaded, e0)
              else let '(v, h) := call (λ _, initialState c) VUndefined (mem e0) in
                   (v, set_mem h e0) in (Ok first, e1)) as ->.
  { destruct (truthy loaded); [done|]. unfold lift_heap. cbn [negb].
    by destruct (call _ _ _). }
  destruct (if truthy loaded then (loaded, e0)
            else let '(v, h) := call (λ _, initialState c) VUndefined (mem e0) in
                 (v, set_mem h e0)) as [first e1].
  unfold bind at 1.
  pose proof (devToolSend_eq dt name first (Some "initialState") None e1) as Hdev.
  destruct (devToolSend _ _ _ _ _ _) as [[b|err] e2].
  - destruct Hdev as [_ ->]. unfold action_label. simpl no_label. cbv iota.
    unfold bind, read_heap, lift_heap, ret. rewrite assign_fresh_eq, spread_one.
    by rewrite !mem_forward.
  - destruct Hdev as [Hlab _]. unfold label_ok in Hlab. simpl in Hlab.
    by rewrite orb_true_r in Hlab.
Qed.

(** ** Runs: what every call preserves *)

Lemma merged_facts this f (h : heap) :
  shapes h `prefix_of` shapes (merged this f h).1
  ∧ isArr (merged this f h).2 = isArray this.
Proof.
  unfold merged. pose proof (shapes_call f (state_ this) h) as Hp.
  by destruct (call f (state_ this) h) as [newState h1].
Qed.

Lemma merged_ext this1 this2 f (h : heap) :
  state_ this1 = state_ this2 → isArray this1 = isArray this2 →
  merged this1 f h = merged this2 f h.
Proof. unfold merged. by intros -> ->. Qed.

Lemma shapes_apply_selector array f state (h : heap) :
  shapes h `prefix_of` shapes (apply_selector array f state h).2.
Proof.
  destruct f as [g|]; cbn [apply_selector].
  - apply shapes_call.
  - rewrite assign_fresh_eq. cbn [snd]. unfold shapes. rewrite fmap_app.
    by apply prefix_app_r.
Qed.

Lemma shapes_observers_next array state obs (h : heap) :
  shapes h `prefix_of` shapes (observers_next array state obs h).2.
Proof.
  revert h. induction obs as [|s r IH]; intros h; simpl; [done|].
  unfold observer_next.
  pose proof (shapes_apply_selector array (selectFn s) state h) as H1.
  destruct (apply_selector array (selectFn s) state h) as [v h1]. simpl in H1.
  pose proof (IH h1) as H2.
  destruct (observers_next array state r h1) as [r1 h2]. simpl in *.
  by etrans.
Qed.

Lemma shapes_deliver this state (h : heap) :
  shapes h `prefix_of` shapes (deliver this state h).2.
Proof.
  unfold deliver. destruct (isStopped this); [done|]. apply shapes_observers_next.
Qed.

Lemma step_write o this e f a st :
  reducer_of o this = Some (f, a, st) →
  step o (this, e) =
    let '(h1, ob) := merged this f (mem e) in
    let state := VRef (List.length h1) in
    let e2 := set_mem (h1 ++ [ob]) e in
    if label_ok (devToolIsEnabled this) a st
    then publish this state
           (persist (localStorageIsEnabled this) (storeName this) state
              (forward (devToolIsEnabled this) (storeName this)
                 (action_label a st) state e2))
    else (this, e2).
Proof.
  intros Hred. unfold step. cbn [fst snd].
  assert (exec_op o this e = setState f a st this e) as ->.
  { destruct o; simpl in Hred; try done; by inversion Hred. }
  rewrite setState_eq. destruct (merged this f (mem e)) as [h1 ob]. cbv zeta.
  destruct (label_ok _ _ _); [|done].
  by destruct (publish _ _ _).
Qed.

Lemma step_select f this e :
  step (OpSelectState f) (this, e) =
    if isStopped this then (this, e)
    else let '(s, h) := observer_next (isArray this) (state_ this)
                          (Subscriber f None []) (mem e) in
         (set_subject (state_ this) (observers this ++ [s]) this, set_mem h e).
Proof.
  unfold step, exec_op, selectState. cbn [fst snd].
  destruct (isStopped this); [done|].
  unfold bind, lift_heap, ret.
  by destruct (observer_next _ _ _ _).
Qed.

Lemma step_caller f this e :
  step (OpCaller f) (this, e) = (this, set_mem (call f (state_ this) (mem e)).2 e).
Proof.
  unfold step, exec_op, bind, lift_heap, ret, getCurrentState. cbn [fst snd].
  by destruct (call _ _ _).
Qed.

Lemma op_cases o this :
  (∃ f a st, reducer_of o this = Some (f, a, st)
             ∧ (label_ok (devToolIsEnabled this) a st = false → ∃ g, o = OpSetState g a st))
  ∨ (∃ f, o = OpSelectState f) ∨ (∃ f, o = OpCaller f).
Proof.
  destruct o as [f a st| | |f|f]; simpl; eauto 8.
  - left. eexists _, _, _. split; [done|]. unfold label_ok. simpl.
    rewrite orb_true_r. done.
  - left. eexists _, _, _. split; [done|]. unfold label_ok. simpl.
    rewrite orb_true_r. done.
Qed.

Lemma step_shape o this e :
  shape_ok this (mem e) →
  shape_ok (step o (this, e)).1 (mem (step o (this, e)).2)
  ∧ isArray (step o (this, e)).1 = isArray this
  ∧ shapes (mem e) `prefix_of` shapes (mem (step o (this, e)).2).
Proof.
  intros (l & Hl & Hs).
  destruct (op_cases o this) as [(f & a & st & Hred & _)|[[f ->]|[f ->]]].
  - rewrite (step_write _ _ _ _ _ _ Hred).
    destruct (merged_facts this f (mem e)) as [Hpre Harr].
    destruct (merged this f (mem e)) as [h1 ob]. cbn [fst snd] in *. cbv zeta.
    assert (shapes h1 `prefix_of` shapes (h1 ++ [ob])) as Hpre2.
    { unfold shapes. rewrite fmap_app. by apply prefix_app_r. }
    destruct (label_ok _ _ _).
    + rewrite publish_eq, mem_persist, mem_forward. cbn [fst snd mem set_mem].
      pose proof (shapes_deliver this (VRef (List.length h1)) (h1 ++ [ob])) as Hpre3.
      split; [|split; [done|]].
      * exists (List.length h1). split; [done|]. cbn [isArray set_subject].
        eapply prefix_lookup_Some; [|exact Hpre3].
        unfold shapes. rewrite fmap_app, lookup_app_r by (by rewrite length_fmap).
        rewrite length_fmap, Nat.sub_diag. simpl. by rewrite Harr.
      * by do 2 (etrans; [eassumption|]).
    + cbn [fst snd mem set_mem]. split; [|split; [done|by etrans]].
      exists l. split; [done|].
      eapply prefix_lookup_Some; [exact Hs|]. by etrans.
  - rewrite step_select. destruct (isStopped this).
    { split; [by exists l|done]. }
    unfold observer_next.
    pose proof (shapes_apply_selector (isArray this) f (state_ this) (mem e)) as Hp.
    destruct (apply_selector _ _ _ _) as [v h1]. cbn [fst snd mem set_mem] in *.
    split; [|done]. exists l. split; [done|]. by eapply prefix_lookup_Some.
  - rewrite step_caller. pose proof (shapes_call f (state_ this) (mem e)) as Hp.
    cbn [fst snd mem set_mem]. split; [|done].
    exists l. split; [done|]. by eapply prefix_lookup_Some.
Qed.

Lemma run_snoc ops o w : run (ops ++ [o]) w = step o (run ops w).
Proof. unfold run. by rewrite foldl_app. Qed.

Lemma run_shape ops this e :
  shape_ok this (mem e) →
  shape_ok (run ops (this, e)).1 (mem (run ops (this, e)).2)
  ∧ isArray (run ops (this, e)).1 = isArray this
  ∧ shapes (mem e) `prefix_of` shapes (mem (run ops (this, e)).2).
Proof.
  intros H0. induction ops as [|o ops IH] using rev_ind; [done|].
  rewrite run_snoc. destruct (run ops (this, e)) as [s1 e1]. cbn [fst snd] in IH.
  destruct IH as (Hs & Ha & Hp).
  destruct (step_shape o s1 e1 Hs) as (Hs' & Ha' & Hp').
  split; [done|]. split; [congruence|by etrans].
Qed.

Lemma constructor_shape c p e :
  ∃ s e1, constructor c p e = (Ok s, e1)
          ∧ shape_ok s (mem e1)
          ∧ isArray s = Array_isArray (mem e1) (firstState s).
Proof.
  rewrite constructor_eq. cbv zeta.
  destruct (first_loaded _ _ _ _) as [first e1].
  eexists _, _. split; [done|]. cbn [mem set_mem isArray state_ firstState].
  split.
  - eexists. split; [done|]. cbn [isArray]. unfold shapes.
    rewrite fmap_app, lookup_app_r by (by rewrite length_fmap).
    by rewrite length_fmap, Nat.sub_diag.
  - rewrite !Array_isArray_shapes. destruct first as [| | | | |l]; try done.
    unfold shapes. rewrite fmap_app.
    destruct (decide (l < List.length (mem e1))) as [Hlt|Hge].
    + by rewrite lookup_app_l by (by rewrite length_fmap).
    + rewrite lookup_app_r by (rewrite length_fmap; lia).
      rewrite length_fmap. rewrite (lookup_ge_None_2 (isArr <$> mem e1)) by
        (rewrite length_fmap; lia).
      destruct (l - List.length (mem e1)) as [|n]; simpl; [done|].
      by rewrite ?lookup_nil.
Qed.

(** C5. Shape invariant: whatever is called on a store after its
    construction, the current state is an object, and it is an array exactly
    when the first state was one. *)
Theorem shape_invariant (c : store_class) (provided : option config) (e0 : env)
    (ops : list op) :
  ∃ s0 e1,
    constructor c provided e0 = (Ok s0, e1)
    ∧ is_object (mem (run ops (s0, e1)).2) (getCurrentState (run ops (s0, e1)).1) = true
    ∧ Array_isArray (mem (run ops (s0, e1)).2) (getCurrentState (run ops (s0, e1)).1)
      = Array_isArray (mem e1) (firstState s0).
Proof.
  destruct (constructor_shape c provided e0) as (s0 & e1 & Hc & Hs & Ha).
  exists s0, e1. split; [done|].
  destruct (run_shape ops s0 e1 Hs) as ((l & Hl & Hsh) & Harr & _).
  unfold getCurrentState. rewrite Hl, <- Ha, <- Harr.
  unfold shapes in Hsh. rewrite list_lookup_fmap in Hsh. simpl.
  destruct (mem (run ops (s0, e1)).2 !! l) as [ob|] eqn:E; [|done].
  simpl in Hsh. split; [|congruence].
  apply bool_decide_eq_true. eauto.
Qed.

(** ** Selector deliveries *)

Lemma consecutive_distinct_snoc l v :
  consecutive_distinct l →
  (∀ k, last l = Some k → strict_eq k v = false) →
  consecutive_distinct (l ++ [v]).
Proof.
  intros Hl Hk i a b Ha Hb.
  destruct (decide (S i < List.length l)) as [Hlt|Hge].
  - rewrite lookup_app_l in Ha by lia. rewrite lookup_app_l in Hb by lia. eauto.
  - assert (S i = List.length l) as Hi.
    { apply lookup_lt_Some in Hb. rewrite length_app in Hb. simpl in Hb. lia. }
    rewrite lookup_app_l in Ha by lia.
    rewrite lookup_app_r, Hi, Nat.sub_diag in Hb by lia. simpl in Hb.
    inversion Hb; subst b. apply Hk.
    rewrite last_lookup. replace (pred (List.length l)) with i by lia. done.
Qed.

Lemma distinct_next_ok v s : sub_ok s → sub_ok (distinct_next v s).
Proof.
  intros [Hk Hd]. unfold distinct_next.
  destruct (lastKey s) as [k|] eqn:Ek.
  - destruct (strict_eq k v) eqn:Eq; [split; [congruence|done]|].
    split; cbn [lastKey delivered]; [by rewrite last_snoc|].
    apply consecutive_distinct_snoc; [done|]. intros k' Hk'. congruence.
  - split; cbn [lastKey delivered]; [by rewrite last_snoc|].
    apply consecutive_distinct_snoc; [done|]. intros k' Hk'. congruence.
Qed.

Lemma observer_next_ok array state s h :
  sub_ok s → sub_ok (observer_next array state s h).1.
Proof.
  intros Hs. unfold observer_next. destruct (apply_selector _ _ _ _).
  by apply distinct_next_ok.
Qed.

Lemma observers_next_ok array state obs h :
  Forall sub_ok obs → Forall sub_ok (observers_next array state obs h).1.
Proof.
  revert h. induction obs as [|s r IH]; intros h Hall; simpl; [done|].
  inversion Hall as [|? ? Hs Hr]; subst.
  pose proof (observer_next_ok array state s h Hs) as H1.
  destruct (observer_next array state s h) as [s1 h1].
  pose proof (IH h1 Hr) as H2.
  destruct (observers_next array state r h1) as [r1 h2]. simpl in *.
  by constructor.
Qed.

Lemma deliver_ok this state h :
  Forall sub_ok (observers this) → Forall sub_ok (deliver this state h).1.
Proof.
  intros Hall. unfold deliver. destruct (isStopped this); [done|].
  by apply observers_next_ok.
Qed.

Lemma step_subs o this e :
  Forall sub_ok (observers this) → Forall sub_ok (observers (step o (this, e)).1).
Proof.
  intros Hall.
  destruct (op_cases o this) as [(f & a & st & Hred & _)|[[f ->]|[f ->]]].
  - rewrite (step_write _ _ _ _ _ _ Hred).
    destruct (merged this f (mem e)) as [h1 ob]. cbv zeta.
    destruct (label_ok _ _ _); [|done].
    rewrite publish_eq. cbn [fst observers set_subject].
    by apply deliver_ok.
  - rewrite step_select. destruct (isStopped this); [done|].
    pose proof (observer_next_ok (isArray this) (state_ this)
                  (Subscriber f None []) (mem e)) as H1.
    destruct (observer_next _ _ _ _) as [s h]. cbn [fst observers set_subject] in *.
    apply Forall_app. split; [done|]. constructor; [|done].
    apply H1. split; [done|]. by intros i a b Ha.
  - by rewrite step_caller.
Qed.

Lemma run_subs ops this e :
  Forall sub_ok (observers this) → Forall sub_ok (observers (run ops (this, e)).1).
Proof.
  intros H0. induction ops as [|o ops IH] using rev_ind; [done|].
  rewrite run_snoc. destruct (run ops (this, e)) as [s1 e1].
  by apply step_subs.
Qed.

(** C3, as the code has it.  [distinctUntilChanged()] compares with [===]:
    on every subscription of a store, no two consecutive deliveries are
    strictly equal, and when the subject takes a new state a subscription
    delivers the selected value unless it is strictly equal to the last value
    it delivered. *)
Theorem selector_distinctness (c : store_class) (provided : option config)
    (e0 : env) (ops : list op) :
  ∃ s0 e1,
    constructor c provided e0 = (Ok s0, e1)
    ∧ ∀ sub, sub ∈ observers (run ops (s0, e1)).1 →
        consecutive_distinct (delivered sub)
        ∧ ∀ array state h,
            delivered (observer_next array state sub h).1 =
              let v := (apply_selector array (selectFn sub) state h).1 in
              match last (delivered sub) with
              | Some k => if strict_eq k v then delivered sub
                          else delivered sub ++ [v]
              | None => delivered sub ++ [v]
              end.
Proof.
  destruct (constructor_shape c provided e0) as (s0 & e1 & Hc & _ & _).
  exists s0, e1. split; [done|]. intros sub Hin.
  assert (observers s0 = []) as Hobs.
  { rewrite constructor_eq in Hc. cbv zeta in Hc.
    destruct (first_loaded _ _ _ _). by inversion Hc. }
  assert (Forall sub_ok (observers (run ops (s0, e1)).1)) as Hall.
  { apply run_subs. rewrite Hobs. constructor. }
  rewrite Forall_forall in Hall. destruct (Hall sub Hin) as [Hk Hd].
  split; [done|]. intros array state h. unfold observer_next.
  destruct (apply_selector array (selectFn sub) state h) as [v h1].
  cbn [fst]. unfold distinct_next. rewrite <- Hk.
  destruct (lastKey sub) as [k|]; [|done]. by destruct (strict_eq k v).
Qed.

(** ** The write path *)






(** ** Configuration *)

(** C10. A class that does not override [storeConfig()] ([null]) is
    constructed without an exception and as with an empty configuration
    [{}]: the merged configuration is the process-wide one, a flag that is
    not a boolean there is [false], and a name that is not a string there is
    the class name. *)
Theorem constructor_default_config (name : string)
    (init : heap → list hact * value) (provided : option config) (e : env) :
  ∃ s e',
    constructor (StoreClass name None init) provided e = (Ok s, e')
    ∧ constructor (StoreClass name (Some ∅) init) provided e
      = (Ok (set_cls (StoreClass name (Some ∅) init) s), e')
    ∧ localStoreConfig s = default ∅ provided
    ∧ localStorageIsEnabled s =
        match default ∅ provided !! "enableLocalStorage" with
        | Some (VBool b) => b
        | _ => false
        end
    ∧ devToolIsEnabled s =
        match default ∅ provided !! "enableDevTool" with
        | Some (VBool b) => b
        | _ => false
        end
    ∧ storeName s =
        match default ∅ provided !! "storeName" with
        | Some (VStr n) => n
        | _ => name
        end.
Proof.
  rewrite !constructor_eq.
  cbn [storeConfig className initialState default from_option id].
  rewrite (left_id_L ∅ (∪)). cbv zeta.
  destruct (first_loaded _ _ _ _) as [first e1].
  eexists _, _. split; [done|]. by repeat split.
Qed.

(** ** Isolation of the side channels *)

Lemma transitions_app a b : transitions (a ++ b) = transitions a ++ transitions b.
Proof. apply omap_app. Qed.

Lemma transitions_forward en n d l s : transitions (forward_events en n d l s) = [].
Proof. unfold forward_events. destruct en; [|done]. by destruct (isActiveDevtool d). Qed.

Lemma transitions_persist en n s : transitions (persist_events en n s) = [].
Proof. unfold persist_events. by destruct en. Qed.

Lemma deliver_ext this1 this2 state h :
  observers this1 = observers this2 → isArray this1 = isArray this2 →
  isStopped this1 = isStopped this2 →
  deliver this1 state h = deliver this2 state h.
Proof. unfold deliver. by intros -> -> ->. Qed.

Lemma write_same o f a st this1 e1 this2 e2 :
  same_subject (this1, e1) (this2, e2) →
  reducer_of o this1 = Some (f, a, st) →
  reducer_of o this2 = Some (f, a, st) →
  label_ok (devToolIsEnabled this1) a st = true →
  label_ok (devToolIsEnabled this2) a st = true →
  same_subject (step o (this1, e1)) (step o (this2, e2)).
Proof.
  intros (Hst & Hobs & Hfirst & Harr & Hinit & Hstop & Hmem & Htr) Hr1 Hr2 Hl1 Hl2.
  cbn [fst snd] in *.
  rewrite (step_write _ _ _ _ _ _ Hr1), (step_write _ _ _ _ _ _ Hr2).
  rewrite (merged_ext this1 this2 f (mem e1) Hst Harr), Hmem.
  destruct (merged this2 f (mem e2)) as [h1 ob]. cbv zeta.
  rewrite Hl1, Hl2, !publish_eq, !mem_persist, !mem_forward.
  unfold same_subject.
  cbn [fst snd state_ observers firstState isArray isStopped cls set_subject mem trace
       set_mem].
  rewrite (deliver_ext this1 this2 _ _ Hobs Harr Hstop). repeat split; try done.
  rewrite !transitions_app, !trace_persist, !trace_forward, !transitions_app.
  rewrite !transitions_forward, !transitions_persist. cbn [trace set_mem].
  by rewrite Htr.
Qed.

Lemma label_ok_labelled en f a st :
  op_labelled (OpSetState f a st) = true → label_ok en a st = true.
Proof.
  unfold op_labelled, label_ok. intros H.
  rewrite <- orb_assoc, H. apply orb_true_r.
Qed.

Lemma step_same o w1 w2 :
  same_subject w1 w2 → op_labelled o = true →
  same_subject (step o w1) (step o w2).
Proof.
  destruct w1 as [this1 e1], w2 as [this2 e2]. intros Hs Hlab.
  pose proof Hs as (Hst & Hobs & Hfirst & Harr & Hinit & Hstop & Hmem & Htr).
  cbn [fst snd] in *.
  destruct o as [f a st| | |f|f].
  - eapply write_same; try done; by apply label_ok_labelled with f.
  - eapply write_same; try done.
    + simpl. by rewrite Hfirst.
    + unfold label_ok. simpl. by rewrite orb_true_r.
    + unfold label_ok. simpl. by rewrite orb_true_r.
  - eapply write_same; try done.
    + simpl. by rewrite Hinit.
    + unfold label_ok. simpl. by rewrite orb_true_r.
    + unfold label_ok. simpl. by rewrite orb_true_r.
  - rewrite !step_select. rewrite Hst, Harr, Hmem, Hstop.
    destruct (isStopped this2) eqn:Hstop2; [by unfold same_subject|].
    destruct (observer_next _ _ _ _) as [s h]. unfold same_subject.
    cbn [fst snd state_ observers firstState isArray isStopped cls set_subject mem trace
         set_mem].
    rewrite Hobs, Hstop, Hstop2. by repeat split.
  - rewrite !step_caller. rewrite Hst, Hmem. unfold same_subject.
    by cbn [fst snd state_ observers firstState isArray isStopped cls set_subject mem trace
            set_mem].
Qed.

Lemma run_same ops w1 w2 :
  same_subject w1 w2 → forallb op_labelled ops = true →
  same_subject (run ops w1) (run ops w2).
Proof.
  intros H0. induction ops as [|o ops IH] using rev_ind; [done|].
  rewrite forallb_app. simpl. rewrite andb_true_r.
  intros [H1 H2]%andb_true_iff. rewrite !run_snoc.
  apply step_same; [by apply IH|done].
Qed.

Lemma constructor_with_flags ls dt c p e :
  constructor (with_flags ls dt c) p e =
    let name := resolved_name c p in
    let '(first, e1) := first_loaded (initialState c) ls name e in
    let arr := Array_isArray (mem e1) first in
    (Ok (Store (with_flags ls dt c) (VRef (List.length (mem e1))) [] ls dt
           (default ∅ (storeConfig (with_flags ls dt c)) ∪ default ∅ p)
           name first arr false),
     set_mem (mem e1 ++ [Obj arr (own_props (mem e1) first)])
       (forward dt name (Some "initialState") first e1)).
Proof.
  rewrite constructor_eq. cbv zeta.
  set (cfg := default ∅ (storeConfig (with_flags ls dt c)) ∪ default ∅ p).
  assert (cfg !! "enableLocalStorage" = Some (VBool ls)) as ->.
  { apply lookup_union_Some_l. simpl. by rewrite lookup_insert_eq. }
  assert (cfg !! "enableDevTool" = Some (VBool dt)) as ->.
  { apply lookup_union_Some_l. simpl.
    by rewrite lookup_insert_ne, lookup_insert_eq. }
  assert (cfg !! "storeName"
          = (default ∅ (storeConfig c) ∪ default ∅ p) !! "storeName") as ->.
  { unfold cfg. rewrite !lookup_union. simpl.
    by rewrite !lookup_insert_ne. }
  done.
Qed.

(** C9, as the code has it.  With no snapshot persisted under the store's
    name at construction, and every [setState] of the run either given a
    label or finding its frame on the stack, the run with both collaborators
    enabled and the run with both disabled publish the same states in the
    same order, end in the same current state and leave the same heap. *)
Theorem isolation (c : store_class) (provided : option config) (e0 : env)
    (ops : list op) :
  localStorage e0 !! resolved_name c provided = None →
  forallb op_labelled ops = true →
  ∃ s_on e_on s_off e_off,
    constructor (with_flags true true c) provided e0 = (Ok s_on, e_on)
    ∧ constructor (with_flags false false c) provided e0 = (Ok s_off, e_off)
    ∧ (localStorageIsEnabled s_on = true ∧ devToolIsEnabled s_on = true)
    ∧ (localStorageIsEnabled s_off = false ∧ devToolIsEnabled s_off = false)
    ∧ transitions (trace (run ops (s_on, e_on)).2)
      = transitions (trace (run ops (s_off, e_off)).2)
    ∧ getCurrentState (run ops (s_on, e_on)).1
      = getCurrentState (run ops (s_off, e_off)).1
    ∧ mem (run ops (s_on, e_on)).2 = mem (run ops (s_off, e_off)).2.
Proof.
  intros Hnone Hlab. rewrite !constructor_with_flags. cbv zeta.
  assert (first_loaded (initialState c) true (resolved_name c provided) e0
          = first_loaded (initialState c) false (resolved_name c provided) e0) as ->.
  { unfold first_loaded. by rewrite Hnone. }
  destruct (first_loaded _ _ _ _) as [first e1].
  eexists _, _, _, _. split; [done|]. split; [done|].
  split; [done|]. split; [done|].
  match goal with
  | |- context [run ops ?w1] =>
      match goal with
      | |- context [transitions (trace (run ops w1).2) = transitions (trace (run ops ?w2).2)] =>
          assert (same_subject (run ops w1) (run ops w2)) as Hsame
      end
  end.
  { apply run_same; [|done]. unfold same_subject.
    cbn [fst snd state_ observers firstState isArray isStopped cls set_subject mem trace
         set_mem with_flags initialState].
    rewrite ?mem_forward, !trace_forward, !transitions_app, !transitions_forward.
    by repeat split. }
  destruct Hsame as (Hst & _ & _ & _ & _ & _ & Hmem & Htr). done.
Qed.

(** ** The claims at concrete stores *)





(** C3 fails as stated: after [selectState().subscribe()] and
    [setState(() => ({}), 'noop')] on a counter store, the subscription has
    delivered two copies of [{ count: 0 }] in a row; they are structurally
    equal and not the same object. *)
Lemma selector_distinctness_counterexample :
  let w := run [OpSelectState None;
                OpSetState (λ _, fresh_record []) (Some "noop") None]
               (built CounterStore None page) in
  ∃ sub,
    sub ∈ observers w.1
    ∧ delivered sub = [VRef 2; VRef 5]
    ∧ mem w.2 !! 2 = Some (record_literal [("count", VNum 0)])
    ∧ mem w.2 !! 5 = Some (record_literal [("count", VNum 0)])
    ∧ ¬ deep_distinct 2 (mem w.2) (delivered sub).
Proof.
  eexists. split; [vm_compute; left|]. split; [reflexivity|].
  split; [vm_compute; reflexivity|]. split; [vm_compute; reflexivity|].
  intros H. specialize (H 0 (VRef 2) (VRef 5) eq_refl eq_refl).
  vm_compute in H. discriminate.
Qed.




(** The four calls of a write on a page with the extension, with both
    collaborators enabled. *)
Example setState_order_example :
  let w := built (with_flags true true CounterStore) None page in
  let w' := step (OpSetState increment (Some "inc") None) w in
  drop (List.length (trace w.2)) (trace w'.2)
  = [EvDevToolSend "CounterStore" (Some "inc") (VRef 3);
     EvExtSend "CounterStore.inc" {["CounterStore" := VRef 3]} "ng-simple-state-0";
     EvSetItem "CounterStore" (VRef 3);
     EvNext (VRef 3)].
Proof. vm_compute. reflexivity. Qed.

(** The label falls back to [undefined] only when the frame is there and has
    no dot. *)
Example infer_action_name_method :
  infer_action_name (Some "Error
    at CounterStore.devToolSend (store.ts:152)
    at CounterStore.setState (store.ts:127)
    at CounterStore.increment (counter.ts:9)") = Ok (Some "increment").
Proof. reflexivity. Qed.

Example infer_action_name_function :
  infer_action_name (Some "Error
    at CounterStore.devToolSend (store.ts:152)
    at CounterStore.setState (store.ts:127)
    at increment (counter.ts:9)") = Ok None.
Proof. reflexivity. Qed.

Example infer_action_name_short : infer_action_name (Some "Error") = Throw "TypeError".
Proof. reflexivity. Qed.

(** The second of the dot-separated parts, not what follows the first dot. *)
Example infer_action_name_nested :
  infer_action_name (Some "Error
    at CounterStore.devToolSend (store.ts:152)
    at CounterStore.setState (store.ts:127)
    at Object.CounterStore.increment (counter.ts:9)") = Ok (Some "CounterStore").
Proof. reflexivity. Qed.

(** A fourth line of a no-break space, a space and one word: [trim] strips
    both, no second word is left, and the lookup throws. *)
Example infer_action_name_nbsp :
  infer_action_name (Some ("Error
 at a
 at b
" +:+ nbsp +:+ " x")) = Throw "TypeError".
Proof. reflexivity. Qed.

(** C9 fails as stated, twice: a persisted snapshot makes the enabled run
    start from (and reset to) [{ count: 5 }] where the disabled run has
    [{ count: 0 }]; and a write whose introspection throws is published by
    the disabled run only. *)
Lemma isolation_counterexample :
  (count_of (run [OpResetState] (built (with_flags true true CounterStore) None
                                   page_with_snapshot)) = Some (VNum 5)
   ∧ count_of (run [OpResetState] (built (with_flags false false CounterStore) None
                                     page_with_snapshot)) = Some (VNum 0))
  ∧ (transitions (trace (run [OpSetState increment None (Some "Error")]
                           (built (with_flags true true CounterStore) None page)).2) = []
     ∧ transitions (trace (run [OpSetState increment None (Some "Error")]
                             (built (with_flags false false CounterStore) None page)).2)
       = [VRef 3]).
Proof. repeat split; vm_compute; reflexivity. Qed.

Lemma isolation_witness :
  let ops := [OpSelectState None; OpSetState increment (Some "inc") None;
              OpSetState increment None (Some "Error
    at CounterStore.devToolSend (store.ts:152)
    at CounterStore.setState (store.ts:127)
    at CounterStore.increment (counter.ts:9)");
              OpResetState; OpRestartState] in
  ∃ s_on e_on s_off e_off,
    constructor (with_flags true true CounterStore) None page = (Ok s_on, e_on)
    ∧ constructor (with_flags false false CounterStore) None page = (Ok s_off, e_off)
    ∧ (localStorageIsEnabled s_on = true ∧ devToolIsEnabled s_on = true)
    ∧ (localStorageIsEnabled s_off = false ∧ devToolIsEnabled s_off = false)
    ∧ transitions (trace (run ops (s_on, e_on)).2)
      = transitions (trace (run ops (s_off, e_off)).2)
    ∧ getCurrentState (run ops (s_on, e_on)).1
      = getCurrentState (run ops (s_off, e_off)).1
    ∧ mem (run ops (s_on, e_on)).2 = mem (run ops (s_off, e_off)).2.
Proof.
  intros ops. apply (isolation CounterStore None page ops).
  - vm_compute. reflexivity.
  - vm_compute. reflexivity.
Defined.

(** C4 at a failing input: on [FormStore], after
    [setState(() => ({ b: 2 }), 'setB')] a [resetState()] leaves
    [{ a: 1, b: 2 }], which is not the first state [{ a: 1 }]: the field the
    write added survives the merge. *)
Theorem resetState_keeps_added_field :
  let w := run [OpSetState (λ _, fresh_record [("b", VNum 2)]) (Some "setB") None;
                OpResetState]
               (built FormStore None page) in
  own_props (mem w.2) (firstState w.1) = props (record_literal [("a", VNum 1)])
  ∧ own_props (mem w.2) (getCurrentState w.1)
    = props (record_literal [("a", VNum 1); ("b", VNum 2)])
  ∧ own_props (mem w.2) (getCurrentState w.1) !! KName "b" = Some (VNum 2)
  ∧ own_props (mem w.2) (firstState w.1) !! KName "b" = None.
Proof. repeat split; vm_compute; reflexivity. Qed.

(** C6 at a failing input: a caller that writes [count = 99] into the value
    [getCurrentState()] returned has changed the state the subject holds,
    with no write published; the value is the subject's own object. *)
Theorem getCurrentState_is_subject_value :
  let w0 := built CounterStore None page in
  let w := run [OpCaller overwrite_count] w0 in
  getCurrentState w0.1 = state_ w0.1
  ∧ count_of w0 = Some (VNum 0)
  ∧ count_of w = Some (VNum 99)
  ∧ state_ w.1 = state_ w0.1
  ∧ transitions (trace w.2) = transitions (trace w0.2).
Proof. repeat split; vm_compute; reflexivity. Qed.

(** * Further properties of the code *)

(** ** The constructor *)

Lemma first_loaded_env init en name e :
  ∃ h, (first_loaded init en name e).2 = set_mem h e.
Proof.
  unfold first_loaded.
  destruct (if en then localStorage e !! name else None) as [t|].
  - destruct (restore t (mem e)) as [v h]. destruct (truthy v).
    + by exists h.
    + destruct (call _ _ _) as [v' h']. by exists h'.
  - simpl. destruct (call _ _ _) as [v' h']. by exists h'.
Qed.

(** X1. The subject is opened on a copy of the first state: a new object, at a
    location no object had when the first state was obtained, with the first
    state's array-ness and own properties.  An object first state is
    therefore never the object the subject holds. *)
Theorem constructor_copies_first_state (c : store_class)
    (provided : option config) (e : env) :
  ∃ s e' h1,
    constructor c provided e = (Ok s, e')
    ∧ mem e' = h1 ++ [Obj (Array_isArray h1 (firstState s))
                          (own_props h1 (firstState s))]
    ∧ getCurrentState s = VRef (List.length h1)
    ∧ isArray s = Array_isArray h1 (firstState s)
    ∧ (is_object h1 (firstState s) = true → firstState s ≠ getCurrentState s).
Proof.
  rewrite constructor_eq. cbv zeta.
  destruct (first_loaded _ _ _ _) as [first e1].
  eexists _, _, (mem e1). split; [done|].
  cbn [mem set_mem getCurrentState state_ firstState isArray].
  repeat split. intros Hobj ->. simpl in Hobj.
  apply bool_decide_eq_true in Hobj as [o Ho].
  apply lookup_lt_Some in Ho. lia.
Qed.

(** X2. What the constructor does to the world besides the heap: it notifies the
    dev tool once, with the label [initialState] and the first state (when
    the dev tool is enabled); it never writes to the storage and never
    publishes through [next]. *)
Theorem constructor_side_effects (c : store_class) (provided : option config)
    (e : env) :
  ∃ s e',
    constructor c provided e = (Ok s, e')
    ∧ trace e' = trace e ++ forward_events (devToolIsEnabled s) (storeName s)
                              (devTool e) (Some "initialState") (firstState s)
    ∧ localStorage e' = localStorage e
    ∧ transitions (trace e') = transitions (trace e)
    ∧ observers s = [].
Proof.
  rewrite constructor_eq. cbv zeta.
  destruct (first_loaded_env (initialState c)
              (boolean_or_false ((default ∅ (storeConfig c) ∪ default ∅ provided)
                                   !! "enableLocalStorage"))
              (string_or (className c)
                 ((default ∅ (storeConfig c) ∪ default ∅ provided) !! "storeName"))
              e) as [h Hh].
  destruct (first_loaded _ _ _ _) as [first e1]. simpl in Hh. subst e1.
  eexists _, _. split; [done|].
  cbn [trace set_mem localStorage devToolIsEnabled storeName firstState observers].
  rewrite trace_forward. cbn [trace set_mem devTool]. split; [done|].
  split.
  - unfold forward, DevTool_send. destruct (boolean_or_false _); [|done].
    simpl. by destruct (isActiveDevtool (devTool e)).
  - split; [|done]. by rewrite transitions_app, transitions_forward, app_nil_r.
Qed.

(** X3. Where the first state comes from.  With persistence off, or nothing
    stored under the store's name, it is what [initialState()] returns.  With
    persistence on and a truthy snapshot stored, it is the loaded snapshot
    and [initialState()] is not called: the heap holds the loaded objects and
    the subject's copy, nothing else new. *)
Theorem constructor_first_state (c : store_class) (provided : option config)
    (e : env) :
  ∃ s e',
    constructor c provided e = (Ok s, e')
    ∧ (localStorageIsEnabled s = false ∨ localStorage e !! storeName s = None →
       firstState s = (call (λ _, initialState c) VUndefined (mem e)).1)
    ∧ (∀ t, localStorageIsEnabled s = true →
            localStorage e !! storeName s = Some t →
            truthy (restore t (mem e)).1 = true →
            firstState s = (restore t (mem e)).1
            ∧ mem e' = (restore t (mem e)).2
                       ++ [Obj (isArray s) (own_props (restore t (mem e)).2 (firstState s))]).
Proof.
  rewrite constructor_eq. cbv zeta.
  set (ls := boolean_or_false _). set (name := string_or _ _).
  destruct (first_loaded (initialState c) ls name e) as [first e1] eqn:Hfirst.
  eexists _, _. split; [done|].
  cbn [localStorageIsEnabled storeName firstState mem set_mem isArray].
  unfold first_loaded in Hfirst. split.
  - intros Hoff.
    assert ((if ls then localStorage e !! name else None) = None) as Hnone.
    { destruct Hoff as [->| ->]; [done|by destruct ls]. }
    rewrite Hnone in Hfirst. simpl in Hfirst.
    destruct (call _ _ _) as [v h]. by inversion Hfirst.
  - intros t -> Hsome Htruthy. rewrite Hsome in Hfirst.
    destruct (restore t (mem e)) as [v h]. simpl in Htruthy.
    rewrite Htruthy in Hfirst. by inversion Hfirst.
Qed.

(** X4. The configuration of a store: its own [storeConfig()] wins over the
    process-wide configuration field by field; a collaborator is enabled
    exactly when the merged field is the boolean [true], and the store is
    named by the merged [storeName] when that is a string, by its class
    otherwise. *)
Theorem constructor_config_precedence (c : store_class)
    (provided : option config) (e : env) :
  ∃ s e',
    constructor c provided e = (Ok s, e')
    ∧ (∀ k, localStoreConfig s !! k =
            match default ∅ (storeConfig c) !! k with
            | Some v => Some v
            | None => default ∅ provided !! k
            end)
    ∧ (localStorageIsEnabled s = true
       ↔ localStoreConfig s !! "enableLocalStorage" = Some (VBool true))
    ∧ (devToolIsEnabled s = true
       ↔ localStoreConfig s !! "enableDevTool" = Some (VBool true))
    ∧ storeName s = match localStoreConfig s !! "storeName" with
                    | Some (VStr n) => n
                    | _ => className c
                    end.
Proof.
  rewrite constructor_eq. cbv zeta.
  destruct (first_loaded _ _ _ _) as [first e1].
  eexists _, _. split; [done|].
  cbn [localStoreConfig localStorageIsEnabled devToolIsEnabled storeName].
  split.
  { intros k. rewrite lookup_union.
    by destruct (default ∅ (storeConfig c) !! k), (default ∅ provided !! k). }
  unfold boolean_or_false.
  split; [|split; [|done]].
  - destruct (_ !! "enableLocalStorage") as [[| |[]| | |]|]; split; congruence.
  - destruct (_ !! "enableDevTool") as [[| |[]| | |]|]; split; congruence.
Qed.

(** ** Reset and restart *)

Lemma distinct_next_extends v s : sub_extends s (distinct_next v s).
Proof.
  unfold distinct_next, sub_extends.
  destruct (lastKey s) as [k|]; [destruct (strict_eq k v)|];
    cbn [selectFn delivered]; split; try done; by apply prefix_app_r.
Qed.

Lemma observers_next_extends array state obs h :
  Forall2 sub_extends obs (observers_next array state obs h).1.
Proof.
  revert h. induction obs as [|s r IH]; intros h; simpl; [constructor|].
  unfold observer_next. destruct (apply_selector _ _ _ _) as [v h1].
  specialize (IH h1). destruct (observers_next array state r h1) as [r1 h2].
  simpl in *. constructor; [apply distinct_next_extends|done].
Qed.

Lemma Forall2_sub_extends_refl obs : Forall2 sub_extends obs obs.
Proof. induction obs; constructor; [by split|done]. Qed.

Lemma deliver_extends this state h :
  Forall2 sub_extends (observers this) (deliver this state h).1.
Proof.
  unfold deliver. destruct (isStopped this); [apply Forall2_sub_extends_refl|].
  apply observers_next_extends.
Qed.

Lemma pure_observers_extends obs obs' :
  Forall2 sub_extends obs obs' →
  Forall (λ s, pure_selector (selectFn s)) obs →
  Forall (λ s, pure_selector (selectFn s)) obs'.
Proof.
  induction 1 as [|s s' r r' [Hsel _] _ IH]; intros Hall; [done|].
  inversion Hall; subst. constructor; [by rewrite Hsel|by apply IH].
Qed.

Lemma own_props_prefix (h h' : heap) v :
  h `prefix_of` h' → is_object h v = true → own_props h' v = own_props h v.
Proof.
  intros Hpre Hobj. destruct v as [| | | | |l]; try done. simpl in *.
  apply bool_decide_eq_true in Hobj as [o Ho].
  by rewrite (prefix_lookup_Some _ _ _ _ Ho Hpre), Ho.
Qed.

Lemma label_ok_given en name : label_ok en (Some (String name.1 name.2)) None = true.
Proof. unfold label_ok. simpl. by rewrite orb_true_r. Qed.

(** X5. [resetState()] and [restartState()] pass their own labels, so they
    never throw, whatever the dev tool and the stack: each completes and
    publishes exactly one state. *)
Theorem reset_restart_complete (this : store) (e : env) :
  (∃ this' e',
     resetState this e = (Ok this', e')
     ∧ transitions (trace e') = transitions (trace e) ++ [getCurrentState this'])
  ∧ (∃ this' e',
       restartState this e = (Ok this', e')
       ∧ transitions (trace e') = transitions (trace e) ++ [getCurrentState this']).
Proof.
  assert (∀ f n, ∃ this' e',
            setState f (Some (String n.1 n.2)) None this e = (Ok this', e')
            ∧ transitions (trace e')
              = transitions (trace e) ++ [getCurrentState this']) as H.
  { intros f n. rewrite setState_eq.
    destruct (merged this f (mem e)) as [h1 ob]. cbv zeta.
    rewrite label_ok_given, publish_eq. eexists _, _. split; [done|].
    cbn [trace getCurrentState state_ set_subject].
    rewrite trace_persist, trace_forward, !transitions_app.
    by rewrite transitions_forward, transitions_persist, !app_nil_r. }
  split.
  - apply (H (λ _ _, ([], firstState this)) ("r"%char, "esetState")).
  - apply (H (λ _, initialState (cls this)) ("r"%char, "estartState")).
Qed.



(** A completed write in full: the new instance, and the heap it leaves. *)
Lemma setState_result_full f a stack this e :
  pure_observers this →
  label_ok (devToolIsEnabled this) a stack = true →
  ∃ obs e',
    setState f a stack this e
    = (Ok (set_subject (VRef (List.length (merged this f (mem e)).1)) obs this), e')
    ∧ Forall2 sub_extends (observers this) obs
    ∧ ((merged this f (mem e)).1 ++ [(merged this f (mem e)).2]) `prefix_of` mem e'.
Proof.
  intros Hpure Hlab. rewrite setState_eq.
  destruct (merged this f (mem e)) as [h1 o]. cbv zeta. rewrite Hlab.
  rewrite publish_eq, mem_persist, mem_forward. cbn [mem set_mem fst snd].
  eexists _, _. split; [done|]. split.
  - apply deliver_extends.
  - by apply deliver_prefix.
Qed.

Lemma lookup_snoc_prefix (h h' : heap) o :
  (h ++ [o]) `prefix_of` h' → h `prefix_of` h' ∧ h' !! List.length h = Some o.
Proof.
  intros Hpre. split.
  - etrans; [|exact Hpre]. by apply prefix_app_r.
  - eapply prefix_lookup_Some; [|exact Hpre].
    by rewrite lookup_app_r, Nat.sub_diag by lia.
Qed.

(** X7. [resetState()] is idempotent: a second reset right after a first one
    builds a state with the same array-ness and the same properties (in a new
    object).  The first state is an object of the heap. *)
Theorem resetState_idempotent (this : store) (e : env) :
  pure_observers this →
  is_object (mem e) (firstState this) = true →
  ∃ this1 e1 this2 e2 l1 l2 o,
    resetState this e = (Ok this1, e1)
    ∧ resetState this1 e1 = (Ok this2, e2)
    ∧ getCurrentState this1 = VRef l1 ∧ mem e1 !! l1 = Some o
    ∧ getCurrentState this2 = VRef l2 ∧ mem e2 !! l2 = Some o
    ∧ l1 ≠ l2.
Proof.
  intros Hpure Hfirst. unfold resetState.
  destruct (setState_result_full (λ _ _, ([], firstState this)) (Some "resetState")
              None this e Hpure) as (obs1 & e1 & Hset1 & Hext1 & Hpre1).
  { unfold label_ok. simpl. by rewrite orb_true_r. }
  unfold merged, call in Hset1, Hpre1. cbn [fst snd apply_acts foldl] in Hset1, Hpre1.
  set (o1 := Obj (isArray this)
               (spread (mem e) ∅ (if isArray this then [firstState this]
                                  else [state_ this; firstState this]))) in *.
  set (this1 := set_subject (VRef (List.length (mem e))) obs1 this) in *.
  apply lookup_snoc_prefix in Hpre1 as [Hpre1 Hl1].
  assert (pure_observers this1) as Hpure1.
  { unfold pure_observers, this1. cbn [observers set_subject].
    by eapply pure_observers_extends. }
  destruct (setState_result_full (λ _ _, ([], firstState this1)) (Some "resetState")
              None this1 e1 Hpure1) as (obs2 & e2 & Hset2 & Hext2 & Hpre2).
  { unfold label_ok. simpl. by rewrite orb_true_r. }
  unfold merged, call in Hset2, Hpre2. cbn [fst snd apply_acts foldl] in Hset2, Hpre2.
  apply lookup_snoc_prefix in Hpre2 as [Hpre2 Hl2].
  exists this1, e1, (set_subject (VRef (List.length (mem e1))) obs2 this1), e2,
    (List.length (mem e)), (List.length (mem e1)), o1.
  split; [done|]. split; [exact Hset2|]. split; [done|]. split; [done|].
  split; [done|]. split.
  - rewrite Hl2. f_equal. unfold o1, this1.
    cbn [isArray firstState state_ set_subject].
    f_equal. destruct (isArray this).
    + rewrite !spread_one. by apply own_props_prefix.
    + rewrite !spread_two. rewrite (own_props_prefix (mem e) (mem e1)) by done.
      cbn [own_props]. rewrite Hl1. cbn [props Obj o1].
      unfold o1. cbn [props Obj]. rewrite spread_two.
      by rewrite (assoc_L (∪)), map_union_idemp.
  - apply lookup_lt_Some in Hl1. lia.
Qed.

Lemma resetState_idempotent_witness :
  let w := run [OpSelectState None;
                OpSetState (λ _, fresh_record [("b", VNum 2)]) (Some "setB") None]
               (built FormStore None page) in
  ∃ this1 e1 this2 e2 l1 l2 o,
    resetState w.1 w.2 = (Ok this1, e1)
    ∧ resetState this1 e1 = (Ok this2, e2)
    ∧ getCurrentState this1 = VRef l1 ∧ mem e1 !! l1 = Some o
    ∧ getCurrentState this2 = VRef l2 ∧ mem e2 !! l2 = Some o
    ∧ l1 ≠ l2.
Proof.
  apply (resetState_idempotent
           (run [OpSelectState None;
                 OpSetState (λ _, fresh_record [("b", VNum 2)]) (Some "setB") None]
                (built FormStore None page)).1
           (run [OpSelectState None;
                 OpSetState (λ _, fresh_record [("b", VNum 2)]) (Some "setB") None]
                (built FormStore None page)).2).
  - vm_compute. repeat constructor.
  - vm_compute. reflexivity.
Defined.

(** X8. [restartState()] merges a freshly computed [initialState()], not the
    first state: on a store whose subscriptions' selectors write to no
    existing object, on an array-shaped store the state becomes a copy of
    what [initialState()] returns now, on a record-shaped store its fields
    are laid over the current ones. *)
Theorem restartState_uses_initialState (this : store) (e : env) :
  pure_observers this →
  ∃ this' e' l,
    restartState this e = (Ok this', e')
    ∧ getCurrentState this' = VRef l
    ∧ mem e' !! l =
        let '(v, h1) := call (λ _, initialState (cls this)) VUndefined (mem e) in
        Some (Obj (isArray this)
                (if isArray this then own_props h1 v
                 else own_props h1 v ∪ own_props h1 (getCurrentState this))).
Proof.
  intros Hpure. unfold restartState.
  destruct (setState_result (λ _, initialState (cls this)) (Some "restartState")
              None this e Hpure) as (this' & e' & Hset & Hcur & _ & Hobj).
  { unfold label_ok. simpl. by rewrite orb_true_r. }
  exists this', e', (List.length (merged this (λ _, initialState (cls this)) (mem e)).1).
  split; [done|]. split; [done|]. rewrite Hobj.
  unfold merged, call, getCurrentState.
  destruct (initialState (cls this) (mem e)) as [acts v]. cbn [fst snd].
  destruct (isArray this); by rewrite ?spread_one, ?spread_two.
Qed.

Lemma restartState_uses_initialState_witness :
  let w := run [OpSelectState None]
               (built (with_flags true false CounterStore) None page_with_snapshot) in
  ∃ this' e' l,
    restartState w.1 w.2 = (Ok this', e')
    ∧ getCurrentState this' = VRef l
    ∧ mem e' !! l =
        let '(v, h1) := call (λ _, initialState (cls w.1)) VUndefined (mem w.2) in
        Some (Obj (isArray w.1)
                (if isArray w.1 then own_props h1 v
                 else own_props h1 v ∪ own_props h1 (getCurrentState w.1))).
Proof.
  apply (restartState_uses_initialState
           (run [OpSelectState None]
                (built (with_flags true false CounterStore) None page_with_snapshot)).1
           (run [OpSelectState None]
                (built (with_flags true false CounterStore) None page_with_snapshot)).2).
  vm_compute. repeat constructor.
Defined.

(** ** Writes *)

Lemma prefix_shapes_length (h h' : heap) :
  shapes h `prefix_of` shapes h' → (List.length h ≤ List.length h')%nat.
Proof. intros H%prefix_length. unfold shapes in H. by rewrite !length_fmap in H. Qed.

(** X9. Every completed write gives the store a new object: the reference the
    subject holds afterwards was not allocated before the write, so it
    differs from the previous state's (and from any reference handed out
    earlier), even when the write changes no field. *)
Theorem setState_fresh_reference (c : store_class) (provided : option config)
    (e0 : env) (ops : list op) :
  ∃ s0 e1,
    constructor c provided e0 = (Ok s0, e1)
    ∧ ∀ stateFn actionName stack this' e',
        setState stateFn actionName stack (run ops (s0, e1)).1 (run ops (s0, e1)).2
        = (Ok this', e') →
        ∃ l, getCurrentState this' = VRef l
             ∧ (List.length (mem (run ops (s0, e1)).2) ≤ l)%nat
             ∧ getCurrentState this' ≠ getCurrentState (run ops (s0, e1)).1.
Proof.
  destruct (constructor_shape c provided e0) as (s0 & e1 & Hc & Hs & _).
  exists s0, e1. split; [done|].
  destruct (run_shape ops s0 e1 Hs) as ((l0 & Hl0 & Hsh) & _ & _).
  destruct (run ops (s0, e1)) as [s e]. cbn [fst snd] in *.
  intros f a st this' e' Hset. rewrite setState_eq in Hset.
  destruct (merged_facts s f (mem e)) as [Hpre _].
  destruct (merged s f (mem e)) as [h1 ob]. cbv zeta in Hset. cbn [fst snd] in Hpre.
  destruct (label_ok _ _ _); [|done].
  rewrite publish_eq in Hset. inversion Hset; subst this' e'.
  apply prefix_shapes_length in Hpre.
  exists (List.length h1). cbn [getCurrentState state_ set_subject].
  split; [done|]. split; [done|]. unfold getCurrentState. rewrite Hl0. intros [= <-].
  apply lookup_lt_Some in Hsh. unfold shapes in Hsh. rewrite length_fmap in Hsh. lia.
Qed.

(** X10. A write whose reducer only builds new objects, on a store whose selectors
    do the same, changes no object that existed before it: the previous
    state, the first state and every snapshot handed out earlier are as they
    were, whether the write completes or throws. *)
Theorem setState_keeps_heap (stateFn : jsfun) (actionName stack : option string)
    (this : store) (e : env) :
  allocates_only stateFn →
  pure_observers this →
  mem e `prefix_of` mem (setState stateFn actionName stack this e).2.
Proof.
  intros Hf Hpure. rewrite setState_eq. unfold merged, call.
  specialize (Hf (state_ this) (mem e)).
  destruct (stateFn (state_ this) (mem e)) as [acts newState]. cbn [fst] in Hf.
  apply apply_acts_alloc with (h := mem e) in Hf. cbv zeta.
  destruct (label_ok _ _ _).
  - rewrite publish_eq, mem_persist, mem_forward. cbn [snd mem set_mem].
    etrans; [exact Hf|]. etrans; [by apply prefix_app_r|].
    by apply deliver_prefix.
  - cbn [snd mem set_mem]. etrans; [exact Hf|]. by apply prefix_app_r.
Qed.

Lemma setState_keeps_heap_witness :
  let w := run [OpSelectState None] (built CounterStore None page) in
  mem w.2 `prefix_of` mem (setState increment None (Some "Error") w.1 w.2).2.
Proof.
  apply (setState_keeps_heap increment None (Some "Error")
           (run [OpSelectState None] (built CounterStore None page)).1
           (run [OpSelectState None] (built CounterStore None page)).2).
  - intros v h. unfold increment, fresh_record.
    destruct (own_props h v !! KName "count") as [[]|]; repeat constructor; eauto.
  - vm_compute. repeat constructor.
Defined.



(** X12. Two writes on a record-shaped store compose: field by field the second
    partial wins over the first, and the first over the state before both.
    Both writes are ones whose label can be had, the second reducer only
    builds new objects, and the subscriptions' selectors write to no
    existing object. *)
Theorem setState_twice_record (f1 f2 : jsfun) (a1 st1 a2 st2 : option string)
    (this : store) (e : env) (p1 : value) (h1 : heap) :
  isArray this = false →
  pure_observers this →
  allocates_only f2 →
  label_ok (devToolIsEnabled this) a1 st1 = true →
  label_ok (devToolIsEnabled this) a2 st2 = true →
  call f1 (getCurrentState this) (mem e) = (p1, h1) →
  ∃ this1 e1 this2 e2 p2 h2 l o,
    setState f1 a1 st1 this e = (Ok this1, e1)
    ∧ call f2 (getCurrentState this1) (mem e1) = (p2, h2)
    ∧ setState f2 a2 st2 this1 e1 = (Ok this2, e2)
    ∧ getCurrentState this2 = VRef l
    ∧ mem e2 !! l = Some o
    ∧ ∀ k, props o !! k =
           match own_props h2 p2 !! k with
           | Some v => Some v
           | None =>
               match own_props h1 p1 !! k with
               | Some v => Some v
               | None => own_props h1 (getCurrentState this) !! k
               end
           end.
Proof.
  intros Hrec Hpure Hf2 Hl1 Hl2 Hcall1.
  destruct (setState_result_full f1 a1 st1 this e Hpure Hl1)
    as (obs1 & e1 & Hset1 & Hext1 & Hpre1).
  unfold merged in Hset1, Hpre1. unfold getCurrentState in Hcall1.
  rewrite Hcall1, Hrec in *. cbn [fst snd] in Hset1, Hpre1.
  rewrite spread_two in Hpre1.
  set (this1 := set_subject (VRef (List.length h1)) obs1 this) in *.
  apply lookup_snoc_prefix in Hpre1 as [Hpre1 Hobj1].
  assert (pure_observers this1) as Hpure1.
  { unfold pure_observers, this1. cbn [observers set_subject].
    by eapply pure_observers_extends. }
  destruct (call f2 (getCurrentState this1) (mem e1)) as [p2 h2] eqn:Hcall2.
  destruct (setState_result f2 a2 st2 this1 e1 Hpure1 Hl2)
    as (this2 & e2 & Hset2 & Hcur2 & _ & Hobj2).
  unfold merged in Hcur2, Hobj2. unfold getCurrentState in Hcall2.
  rewrite Hcall2 in *. cbn [fst snd isArray state_ set_subject this1] in Hcur2, Hobj2.
  rewrite Hrec, spread_two in Hobj2.
  assert (mem e1 `prefix_of` h2) as Hpre2.
  { unfold call in Hcall2. specialize (Hf2 (state_ this1) (mem e1)).
    destruct (f2 (state_ this1) (mem e1)) as [acts r]. inversion Hcall2; subst.
    by apply apply_acts_alloc. }
  eexists this1, e1, this2, e2, p2, h2, _, _.
  split; [done|]. split; [done|]. split; [done|]. split; [done|]. split; [done|].
  intros k. cbn [props Obj own_props]. rewrite lookup_union.
  rewrite (prefix_lookup_Some _ _ _ _ Hobj1 Hpre2). cbn [props Obj].
  rewrite lookup_union. unfold getCurrentState.
  destruct (own_props h2 p2 !! k), (own_props h1 p1 !! k),
    (own_props h1 (state_ this) !! k); done.
Qed.

Lemma setState_twice_record_witness :
  let w := run [OpSelectState None] (built FormStore None page) in
  ∃ this1 e1 this2 e2 p2 h2 l o,
    setState (λ _, fresh_record [("b", VNum 2)]) (Some "setB") None w.1 w.2
    = (Ok this1, e1)
    ∧ call (λ _, fresh_record [("a", VNum 7)]) (getCurrentState this1) (mem e1)
      = (p2, h2)
    ∧ setState (λ _, fresh_record [("a", VNum 7)]) (Some "setA") None this1 e1
      = (Ok this2, e2)
    ∧ getCurrentState this2 = VRef l
    ∧ mem e2 !! l = Some o
    ∧ ∀ k, props o !! k =
           match own_props h2 p2 !! k with
           | Some v => Some v
           | None =>
               match own_props (mem w.2 ++ [record_literal [("b", VNum 2)]])
                       (VRef 3) !! k with
               | Some v => Some v
               | None => own_props (mem w.2 ++ [record_literal [("b", VNum 2)]])
                           (getCurrentState w.1) !! k
               end
           end.
Proof.
  apply (setState_twice_record (λ _, fresh_record [("b", VNum 2)])
           (λ _, fresh_record [("a", VNum 7)]) (Some "setB") None (Some "setA") None
           (run [OpSelectState None] (built FormStore None page)).1
           (run [OpSelectState None] (built FormStore None page)).2
           (VRef 3)
           (mem (run [OpSelectState None] (built FormStore None page)).2
            ++ [record_literal [("b", VNum 2)]])).
  - vm_compute. reflexivity.
  - vm_compute. repeat constructor.
  - intros v h. repeat constructor. eauto.
  - vm_compute. reflexivity.
  - vm_compute. reflexivity.
  - vm_compute. reflexivity.
Defined.

(** ** Subscriptions over a run *)

Lemma step_extends o this e i sub :
  observers this !! i = Some sub →
  ∃ sub', observers (step o (this, e)).1 !! i = Some sub' ∧ sub_extends sub sub'.
Proof.
  intros Hi.
  destruct (op_cases o this) as [(f & a & st & Hred & _)|[[f ->]|[f ->]]].
  - rewrite (step_write _ _ _ _ _ _ Hred).
    destruct (merged this f (mem e)) as [h1 ob]. cbv zeta.
    destruct (label_ok _ _ _).
    + rewrite publish_eq. cbn [fst observers set_subject].
      pose proof (deliver_extends this (VRef (List.length h1))
                    (mem (persist (localStorageIsEnabled this) (storeName this)
                            (VRef (List.length h1))
                            (forward (devToolIsEnabled this) (storeName this)
                               (action_label a st) (VRef (List.length h1))
                               (set_mem (h1 ++ [ob]) e))))) as Hall.
      destruct (Forall2_lookup_l _ _ _ _ _ Hall Hi) as (sub' & Hi' & Hext). eauto.
    + exists sub. split; [done|]. by split.
  - rewrite step_select. destruct (isStopped this).
    { exists sub. split; [done|]. by split. }
    destruct (observer_next _ _ _ _) as [s h].
    cbn [fst observers set_subject]. exists sub. split; [|by split].
    by apply lookup_app_l_Some.
  - rewrite step_caller. exists sub. split; [done|]. by split.
Qed.

(** X13. No call on a store loses, reorders or rewrites a subscription: after any
    run each subscription is still at its place, with its selector, and what
    it had delivered is the beginning of what it has delivered now. *)
Theorem subscriptions_only_grow (ops : list op) (this : store) (e : env) :
  ∀ i sub, observers this !! i = Some sub →
    ∃ sub', observers (run ops (this, e)).1 !! i = Some sub'
            ∧ selectFn sub' = selectFn sub
            ∧ delivered sub `prefix_of` delivered sub'.
Proof.
  induction ops as [|o ops IH] using rev_ind; intros i sub Hi.
  - exists sub. by repeat split.
  - rewrite run_snoc. destruct (IH i sub Hi) as (sub1 & Hi1 & Hsel1 & Hpre1).
    destruct (run ops (this, e)) as [s1 e1]. cbn [fst] in Hi1.
    destruct (step_extends o s1 e1 i sub1 Hi1) as (sub2 & Hi2 & Hsel2 & Hpre2).
    exists sub2. split; [done|]. split; [congruence|by etrans].
Qed.

Lemma subscriptions_only_grow_witness :
  let w := run [OpSelectState None] (built CounterStore None page) in
  let ops := [OpSetState increment (Some "inc") None; OpSelectState None;
              OpResetState; OpCaller overwrite_count] in
  ∃ sub', observers (run ops (w.1, w.2)).1 !! 0 = Some sub'
          ∧ selectFn sub' = selectFn (Subscriber None (Some (VRef 2)) [VRef 2])
          ∧ delivered (Subscriber None (Some (VRef 2)) [VRef 2])
            `prefix_of` delivered sub'.
Proof.
  intros w ops.
  apply (subscriptions_only_grow ops w.1 w.2 0 (Subscriber None (Some (VRef 2)) [VRef 2])).
  vm_compute. reflexivity.
Defined.

Lemma length_apply_selector array f state (h : heap) :
  (List.length h ≤ List.length (apply_selector array f state h).2)%nat.
Proof. apply prefix_shapes_length, shapes_apply_selector. Qed.

Lemma keys_below_mono (h h' : heap) obs :
  (List.length h ≤ List.length h')%nat → keys_below h obs → keys_below h' obs.
Proof.
  intros Hle Hall. unfold keys_below. eapply Forall_impl; [exact Hall|].
  intros s Hs Hsel. destruct (Hs Hsel) as (l & Hk & Hl). exists l. split; [done|lia].
Qed.

Lemma observer_next_default array state s (h : heap) :
  (selectFn s = None → ∃ l, lastKey s = Some (VRef l) ∧ l < List.length h) →
  delivers_copy h s (observer_next array state s h).1
  ∧ (selectFn (observer_next array state s h).1 = None →
     ∃ l, lastKey (observer_next array state s h).1 = Some (VRef l)
          ∧ l < List.length (observer_next array state s h).2).
Proof.
  intros Hkey. unfold observer_next, delivers_copy.
  destruct (selectFn s) as [f|] eqn:Hsel.
  - cbn [apply_selector]. destruct (call f state h) as [v h1]. cbn [fst snd].
    split; [done|]. intros Hnone.
    assert (selectFn (distinct_next v s) = selectFn s) as Heq
      by apply distinct_next_extends.
    congruence.
  - rewrite default_selector_copies. cbn [fst snd].
    destruct (Hkey eq_refl) as (l & Hk & Hl).
    unfold distinct_next. rewrite Hk.
    assert (strict_eq (VRef l) (VRef (List.length h)) = false) as ->.
    { apply bool_decide_eq_false. intros [= ->]. lia. }
    cbn [selectFn lastKey delivered]. split.
    + intros _. by exists (List.length h).
    + intros _. exists (List.length h). split; [done|].
      rewrite length_app. simpl. lia.
Qed.

Lemma observers_next_default array state obs (h : heap) :
  keys_below h obs →
  Forall2 (delivers_copy h) obs (observers_next array state obs h).1
  ∧ keys_below (observers_next array state obs h).2 (observers_next array state obs h).1
  ∧ (List.length h ≤ List.length (observers_next array state obs h).2)%nat.
Proof.
  revert h. induction obs as [|s r IH]; intros h Hkeys; simpl.
  { split; [constructor|]. split; [constructor|done]. }
  inversion Hkeys as [|? ? Hs Hr]; subst.
  destruct (observer_next_default array state s h Hs) as [Hd Hk].
  pose proof (length_apply_selector array (selectFn s) state h) as Hlen.
  unfold observer_next in *.
  destruct (apply_selector array (selectFn s) state h) as [v h1]. cbn [fst snd] in *.
  destruct (IH h1 (keys_below_mono h h1 r Hlen Hr)) as (Hd' & Hk' & Hlen').
  destruct (observers_next array state r h1) as [r1 h2]. cbn [fst snd] in *.
  split; [|split; [|lia]].
  - constructor; [done|]. eapply Forall2_impl; [exact Hd'|].
    intros a b Hab Hsel. destruct (Hab Hsel) as (l & ? & ?). exists l. split; [done|lia].
  - constructor; [|done]. intros Hsel. destruct (Hk Hsel) as (l & ? & ?).
    exists l. split; [done|lia].
Qed.

Lemma deliver_default this state (h : heap) :
  isStopped this = false →
  keys_below h (observers this) →
  Forall2 (delivers_copy h) (observers this) (deliver this state h).1.
Proof.
  intros Hrun Hkeys. unfold deliver. rewrite Hrun.
  by apply observers_next_default.
Qed.

Lemma deliver_keys this state (h : heap) :
  keys_below h (observers this) →
  keys_below (deliver this state h).2 (deliver this state h).1.
Proof.
  intros Hkeys. unfold deliver. destruct (isStopped this); [done|].
  by apply observers_next_default.
Qed.

Lemma step_keys o this e :
  keys_below (mem e) (observers this) →
  keys_below (mem (step o (this, e)).2) (observers (step o (this, e)).1).
Proof.
  intros Hkeys.
  destruct (op_cases o this) as [(f & a & st & Hred & _)|[[f ->]|[f ->]]].
  - rewrite (step_write _ _ _ _ _ _ Hred).
    destruct (merged_facts this f (mem e)) as [Hpre _].
    destruct (merged this f (mem e)) as [h1 ob]. cbv zeta. cbn [fst] in Hpre.
    apply prefix_shapes_length in Hpre.
    assert (List.length (mem e) ≤ List.length (h1 ++ [ob]))%nat as Hle
      by (rewrite length_app; simpl; lia).
    destruct (label_ok _ _ _).
    + rewrite publish_eq, mem_persist, mem_forward.
      cbn [fst snd observers set_subject mem set_mem].
      apply deliver_keys. by eapply keys_below_mono.
    + cbn [fst snd mem set_mem]. by eapply keys_below_mono.
  - rewrite step_select. destruct (isStopped this); [done|].
    pose proof (length_apply_selector (isArray this) f (state_ this) (mem e)) as Hlen.
    unfold observer_next. cbn [selectFn].
    destruct f as [g|].
    + cbn [apply_selector] in *. destruct (call g (state_ this) (mem e)) as [v h1].
      cbn [fst snd observers set_subject mem set_mem] in *.
      apply Forall_app. split; [by eapply keys_below_mono|].
      constructor; [|done]. unfold distinct_next. by cbn [lastKey selectFn].
    + rewrite default_selector_copies in *.
      cbn [fst snd observers set_subject mem set_mem] in *.
      apply Forall_app. split; [by eapply keys_below_mono|].
      constructor; [|done]. intros _. unfold distinct_next. cbn [lastKey selectFn].
      exists (List.length (mem e)). split; [done|]. rewrite length_app. simpl. lia.
  - rewrite step_caller. cbn [fst snd mem set_mem].
    eapply keys_below_mono; [|done].
    apply prefix_shapes_length, shapes_call.
Qed.

Lemma constructor_no_observers c p e :
  ∃ s e', constructor c p e = (Ok s, e') ∧ observers s = [] ∧ isStopped s = false.
Proof.
  rewrite constructor_eq. cbv zeta. destruct (first_loaded _ _ _ _).
  by eexists _, _.
Qed.

Lemma step_isStopped o this e : isStopped (step o (this, e)).1 = isStopped this.
Proof.
  destruct (op_cases o this) as [(f & a & st & Hred & _)|[[f ->]|[f ->]]].
  - rewrite (step_write _ _ _ _ _ _ Hred).
    destruct (merged this f (mem e)) as [h1 ob]. cbv zeta.
    destruct (label_ok _ _ _); [|done].
    by rewrite publish_eq.
  - rewrite step_select. destruct (isStopped this) eqn:Hrun; [done|].
    by destruct (observer_next _ _ _ _).
  - by rewrite step_caller.
Qed.

Lemma run_isStopped ops this e : isStopped (run ops (this, e)).1 = isStopped this.
Proof.
  induction ops as [|o ops IH] using rev_ind; [done|].
  rewrite run_snoc. destruct (run ops (this, e)) as [s1 e1].
  by rewrite step_isStopped.
Qed.

Lemma run_keys ops this e :
  keys_below (mem e) (observers this) →
  keys_below (mem (run ops (this, e)).2) (observers (run ops (this, e)).1).
Proof.
  intros H0. induction ops as [|o ops IH] using rev_ind; [done|].
  rewrite run_snoc. destruct (run ops (this, e)) as [s1 e1]. by apply step_keys.
Qed.

(** X14. [selectState()] without a selector defeats [distinctUntilChanged()]:
    the copy it selects is a new object each time, so every completed write
    on a store, after any run of writes, subscriptions and reads, is
    delivered to every such subscription, as a reference to an object the
    write allocated, even when the write changes nothing. *)
Theorem selectState_default_always_delivers (c : store_class)
    (provided : option config) (e0 : env) (ops : list op) :
  ∃ s0 e1,
    constructor c provided e0 = (Ok s0, e1)
    ∧ ∀ stateFn actionName stack this' e',
        setState stateFn actionName stack (run ops (s0, e1)).1 (run ops (s0, e1)).2
        = (Ok this', e') →
        Forall2 (delivers_copy (mem (run ops (s0, e1)).2))
                (observers (run ops (s0, e1)).1) (observers this').
Proof.
  destruct (constructor_no_observers c provided e0) as (s0 & e1 & Hc & Hobs & Hrun0).
  exists s0, e1. split; [done|].
  assert (keys_below (mem e1) (observers s0)) as Hk0 by (rewrite Hobs; constructor).
  pose proof (run_keys ops s0 e1 Hk0) as Hkeys.
  pose proof (run_isStopped ops s0 e1) as Hrun. rewrite Hrun0 in Hrun.
  destruct (run ops (s0, e1)) as [s e]. cbn [fst snd] in *.
  intros f a st this' e' Hset. rewrite setState_eq in Hset.
  destruct (merged_facts s f (mem e)) as [Hpre _].
  destruct (merged s f (mem e)) as [h1 ob]. cbv zeta in Hset. cbn [fst] in Hpre.
  apply prefix_shapes_length in Hpre.
  destruct (label_ok _ _ _); [|done].
  rewrite publish_eq, mem_persist, mem_forward in Hset.
  cbn [mem set_mem] in Hset. inversion Hset; subst this' e'.
  cbn [observers set_subject].
  assert (List.length (mem e) ≤ List.length (h1 ++ [ob]))%nat as Hle
    by (rewrite length_app; simpl; lia).
  pose proof (deliver_default s (VRef (List.length h1)) (h1 ++ [ob]) Hrun
                (keys_below_mono _ _ _ Hle Hkeys)) as Hd.
  eapply Forall2_impl; [exact Hd|].
  intros a' b' Hab Hsel. destruct (Hab Hsel) as (l & ? & ?). exists l. split; [done|lia].
Qed.

Lemma step_set_subject o this e :
  ∃ v obs, (step o (this, e)).1 = set_subject v obs this.
Proof.
  assert (this = set_subject (state_ this) (observers this) this) as Hid
    by by destruct this.
  destruct (op_cases o this) as [(f & a & st & Hred & _)|[[f ->]|[f ->]]].
  - rewrite (step_write _ _ _ _ _ _ Hred).
    destruct (merged this f (mem e)) as [h1 ob]. cbv zeta.
    destruct (label_ok _ _ _); [|by eauto].
    rewrite publish_eq. cbn [fst]. eauto.
  - rewrite step_select. destruct (isStopped this); [by eauto|].
    destruct (observer_next _ _ _ _). cbn [fst]. eauto.
  - rewrite step_caller. cbn [fst]. eauto.
Qed.

Lemma run_set_subject ops this e :
  ∃ v obs, (run ops (this, e)).1 = set_subject v obs this.
Proof.
  induction ops as [|o ops IH] using rev_ind.
  - exists (state_ this), (observers this). by destruct this.
  - rewrite run_snoc. destruct IH as (v1 & obs1 & H1).
    destruct (run ops (this, e)) as [s1 e1]. cbn [fst] in H1. subst s1.
    destruct (step_set_subject o (set_subject v1 obs1 this) e1) as (v & obs & ->).
    by exists v, obs.
Qed.

(** X15. What is fixed at construction stays fixed: no call on a store changes
    its class, its first state, its shape, its name, its two flags or its
    configuration. *)
Theorem configuration_is_frozen (ops : list op) (this : store) (e : env) :
  cls (run ops (this, e)).1 = cls this
  ∧ firstState (run ops (this, e)).1 = firstState this
  ∧ isArray (run ops (this, e)).1 = isArray this
  ∧ storeName (run ops (this, e)).1 = storeName this
  ∧ localStorageIsEnabled (run ops (this, e)).1 = localStorageIsEnabled this
  ∧ devToolIsEnabled (run ops (this, e)).1 = devToolIsEnabled this
  ∧ localStoreConfig (run ops (this, e)).1 = localStoreConfig this.
Proof.
  by destruct (run_set_subject ops this e) as (v & obs & ->).
Qed.

(** ** The dev tool *)

(** X16. [devToolSend] reports [true] exactly when the dev tool is enabled for
    the store and the extension session is active; the world is then changed
    only on the dev tool's side.  When it throws, nothing was sent. *)
Theorem devToolSend_result (enabled : bool) (name : string) (newState : value)
    (actionName stack : option string) (e : env) :
  match devToolSend enabled name newState actionName stack e with
  | (Ok b, e') =>
      b = enabled && isActiveDevtool (devTool e)
      ∧ mem e' = mem e ∧ localStorage e' = localStorage e
  | (Throw _, e') => e' = e
  end.
Proof.
  pose proof (devToolSend_eq enabled name newState actionName stack e) as H.
  unfold devToolSend in *. destruct enabled; cbn [negb] in *; [|done].
  unfold bind at 1 in H. unfold bind at 1.
  destruct (no_label actionName).
  - destruct (infer_action_name stack) as [lab|err]; [|done].
    unfold bind, tell, DevTool_send. cbn [devTool emit].
    by destruct (isActiveDevtool (devTool e)).
  - unfold ret, bind, tell, DevTool_send. cbn [devTool emit].
    by destruct (isActiveDevtool (devTool e)).
Qed.

(** X17. The dev tool's aggregate after a write.  With the dev tool enabled and
    the session active, a completed write puts the store's new state, the
    very object the subject now holds, under the store's name and leaves the
    entries of all other stores; otherwise, and when the write throws, the
    dev tool is as before. *)
Theorem setState_devtool_aggregate (stateFn : jsfun)
    (actionName stack : option string) (this : store) (e : env) :
  match setState stateFn actionName stack this e with
  | (Ok this', e') =>
      if devToolIsEnabled this && isActiveDevtool (devTool e)
      then baseState (devTool e')
           = <[storeName this := getCurrentState this']> (baseState (devTool e))
           ∧ isActiveDevtool (devTool e') = true
           ∧ instanceId (devTool e') = instanceId (devTool e)
      else devTool e' = devTool e
  | (Throw _, e') => devTool e' = devTool e
  end.
Proof.
  rewrite setState_eq. destruct (merged this stateFn (mem e)) as [h1 ob]. cbv zeta.
  destruct (label_ok _ _ _); [|done].
  rewrite publish_eq. cbn [devTool getCurrentState state_ set_subject].
  rewrite devTool_persist. unfold forward, DevTool_send.
  destruct (devToolIsEnabled this); [|done].
  cbn [devTool emit set_mem andb].
  by destruct (isActiveDevtool (devTool e)).
Qed.

(** ** Teardown *)

(** X18. [ngOnDestroy()] never throws.  It tells the dev tool, when enabled,
    [ngOnDestroy] with an [undefined] state, so that an active session's
    aggregate keeps the store's name with the value [undefined]; it leaves the
    heap, the storage (a persisted snapshot outlives the store) and the value
    of the subject, publishes nothing, lets go of every subscription and
    leaves the subject completed. *)
Theorem ngOnDestroy_effects (this : store) (e : env) :
  ∃ this' e',
    ngOnDestroy this e = (Ok this', e')
    ∧ getCurrentState this' = getCurrentState this
    ∧ observers this' = []
    ∧ isStopped this' = true
    ∧ mem e' = mem e
    ∧ localStorage e' = localStorage e
    ∧ trace e' = trace e ++ forward_events (devToolIsEnabled this) (storeName this)
                              (devTool e) (Some "ngOnDestroy") VUndefined
    ∧ (if devToolIsEnabled this && isActiveDevtool (devTool e)
       then baseState (devTool e') !! storeName this = Some VUndefined
       else devTool e' = devTool e).
Proof.
  unfold ngOnDestroy, bind.
  pose proof (devToolSend_eq (devToolIsEnabled this) (storeName this) VUndefined
                (Some "ngOnDestroy") None e) as Hdev.
  destruct (devToolSend _ _ _ _ _ _) as [[b|err] e1].
  - destruct Hdev as [_ ->]. unfold action_label, ret. cbn [no_label String.eqb].
    eexists _, _. split; [done|].
    cbn [getCurrentState state_ observers isStopped subject_complete].
    rewrite mem_forward, trace_forward. repeat split.
    + unfold forward, DevTool_send. destruct (devToolIsEnabled this); [|done].
      cbn [emit devTool]. by destruct (isActiveDevtool (devTool e)).
    + unfold forward, DevTool_send. destruct (devToolIsEnabled this); [|done].
      cbn [emit devTool andb]. destruct (isActiveDevtool (devTool e)); [|done].
      cbn [snd devTool set_devTool emit baseState]. by rewrite lookup_insert_eq.
  - destruct Hdev as [Hlab _]. unfold label_ok in Hlab. simpl in Hlab.
    by rewrite orb_true_r in Hlab.
Qed.



(** After [ngOnDestroy()] on a counter store with one subscription, a write
    is forwarded, persisted and kept, and delivered to no one; a new
    subscription gets nothing. *)
Example destroyed_store_example :
  let w := destroyed (run [OpSelectState None]
                        (built (with_flags true true CounterStore) None page)) in
  let w' := run [OpSetState increment (Some "inc") None; OpSelectState None] w in
  observers w.1 = []
  ∧ observers w'.1 = []
  ∧ count_of w' = Some (VNum 1)
  ∧ drop (List.length (trace w.2)) (trace w'.2)
    = [EvDevToolSend "CounterStore" (Some "inc") (VRef 4);
       EvExtSend "CounterStore.inc" {["CounterStore" := VRef 4]} "ng-simple-state-0";
       EvSetItem "CounterStore" (VRef 4);
       EvNext (VRef 4)].
Proof. repeat split; vm_compute; reflexivity. Qed.

(** ** The default action label *)

Lemma split_not_nil c s : split c s ≠ [].
Proof. destruct s as [|a r]; simpl; [done|]. destruct (Ascii.eqb a c); [done|]. by destruct (split c r). Qed.

Lemma split_length c s : List.length (split c s) = S (count_char c s).
Proof.
  induction s as [|a r IH]; simpl; [done|].
  destruct (Ascii.eqb a c); simpl; [by rewrite IH|].
  pose proof (split_not_nil c r). destruct (split c r); [done|]. by simpl in *.
Qed.

Lemma append_nil_l b : EmptyString +:+ b = b.
Proof. reflexivity. Qed.

Lemma append_cons x a b : String x a +:+ b = String x (a +:+ b).
Proof. reflexivity. Qed.

Lemma append_empty_r s : s +:+ EmptyString = s.
Proof. induction s as [|x s IH]; [done|]. by rewrite append_cons, IH. Qed.

Lemma split_app_l c a b :
  count_char c a = 0 →
  split c (a +:+ b) = match split c b with
                      | x :: xs => (a +:+ x) :: xs
                      | [] => [a]
                      end.
Proof.
  pose proof (split_not_nil c b) as Hb.
  induction a as [|x a IH].
  - intros _. rewrite append_nil_l. by destruct (split c b).
  - rewrite append_cons. simpl. destruct (Ascii.eqb x c); [done|]. simpl.
    intros Hc. rewrite (IH Hc). by destruct (split c b).
Qed.

Lemma split_app_sep c a b :
  count_char c a = 0 → split c (a +:+ String c b) = a :: split c b.
Proof.
  intros Hc. rewrite (split_app_l c a _ Hc). simpl. rewrite Ascii.eqb_refl.
  by rewrite append_empty_r.
Qed.

Lemma split_sep_free c a : count_char c a = 0 → split c a = [a].
Proof.
  intros Hc. rewrite <- (append_empty_r a) at 1.
  rewrite (split_app_l c a _ Hc). simpl. by rewrite append_empty_r.
Qed.

Lemma split_join_head c line more :
  count_char c line = 0 → ∃ rest, split c (join c (line :: more)) = line :: rest.
Proof.
  intros Hc. destruct more as [|m more].
  - exists []. by apply split_sep_free.
  - eexists. change (join c (line :: m :: more))
      with (line +:+ String c (join c (m :: more))).
    by apply split_app_sep.
Qed.

Lemma count_char_app c a b : count_char c (a +:+ b) = count_char c a + count_char c b.
Proof.
  induction a as [|x a IH]; [done|]. rewrite append_cons. simpl. rewrite IH. lia.
Qed.

Lemma no_space_cons x s :
  no_space (String x s) = true → is_space x = false ∧ no_space s = true.
Proof.
  cbn [no_space starts_space]. intros [Hx Hs]%andb_true_iff.
  apply negb_true_iff, orb_false_iff in Hx as [Hx _]. done.
Qed.

Lemma no_space_count c s : no_space s = true → is_space c = true → count_char c s = 0.
Proof.
  intros Hs Hc. induction s as [|x s IH]; [done|].
  apply no_space_cons in Hs as [Hx Hs]. simpl. rewrite (IH Hs).
  destruct (Ascii.eqb x c) eqn:E; [|done].
  apply Ascii.eqb_eq in E. subst x. by rewrite Hc in Hx.
Qed.

Ltac byte_cases :=
  repeat match goal with
         | |- context [N.eqb ?a ?b] => rewrite (proj2 (N.eqb_neq a b)) by lia
         | |- context [N.leb ?a ?b] => rewrite (proj2 (N.leb_gt a b)) by lia
         end;
  rewrite ?andb_false_r, ?andb_false_l, ?orb_false_r, ?orb_false_l; try done.

Lemma is_space2_low_r a b : (N_of_ascii b < 128)%N → is_space2 a b = false.
Proof. intros Hb. unfold is_space2. byte_cases. Qed.

Lemma is_space2_low_l a b : (N_of_ascii a < 128)%N → is_space2 a b = false.
Proof. intros Ha. unfold is_space2. byte_cases. Qed.

Lemma is_space3_low_l a b c : (N_of_ascii a < 128)%N → is_space3 a b c = false.
Proof. intros Ha. unfold is_space3. cbv zeta. byte_cases. Qed.

Lemma is_space3_low_m a b c : (N_of_ascii b < 128)%N → is_space3 a b c = false.
Proof. intros Hb. unfold is_space3. cbv zeta. byte_cases. Qed.

Lemma is_space3_low_r a b c : (N_of_ascii c < 128)%N → is_space3 a b c = false.
Proof. intros Hc. unfold is_space3. cbv zeta. byte_cases. Qed.

(** A one-byte character that is not white space begins no white space. *)
Lemma starts_space_low x r :
  (N_of_ascii x < 128)%N → is_space x = false → starts_space (String x r) = false.
Proof.
  intros Hlow Hx. cbn [starts_space]. rewrite Hx.
  destruct r as [|y [|z r]]; cbn [orb]; [done| |].
  - by rewrite is_space2_low_l.
  - by rewrite is_space2_low_l, is_space3_low_l.
Qed.

(** White space that begins in a string without white space would have to
    go on beyond it, and a one-byte character does not continue one. *)
Lemma starts_space_before a sep rest :
  (N_of_ascii sep < 128)%N → no_space a = true → a ≠ EmptyString →
  starts_space (a +:+ String sep rest) = false.
Proof.
  intros Hlow Ha Hne. destruct a as [|x a]; [done|].
  cbn [no_space starts_space] in Ha. apply andb_true_iff in Ha as [Hx _].
  apply negb_true_iff in Hx. apply orb_false_iff in Hx as [Hx Hrest].
  rewrite append_cons. cbn [starts_space]. rewrite Hx. cbn [orb].
  destruct a as [|y a].
  - rewrite append_nil_l, is_space2_low_r by done. cbn [orb].
    destruct rest; [done|]. by rewrite is_space3_low_m.
  - apply orb_false_iff in Hrest as [Hxy Hrest].
    rewrite append_cons, Hxy. cbn [orb]. destruct a as [|z a].
    + rewrite append_nil_l. by rewrite is_space3_low_r.
    + by rewrite append_cons.
Qed.

Lemma no_space_app_sep a sep b :
  (N_of_ascii sep < 128)%N → is_space sep = false →
  no_space a = true → no_space b = true → no_space (a +:+ String sep b) = true.
Proof.
  intros Hlow Hsep Ha Hb. induction a as [|x a IH].
  - rewrite append_nil_l. cbn [no_space]. rewrite starts_space_low by done. done.
  - pose proof Ha as [_ Ha']%no_space_cons.
    assert (starts_space (String x a +:+ String sep b) = false) as Hst
      by by apply starts_space_before.
    rewrite append_cons in *. cbn [no_space]. rewrite Hst. cbn [negb andb].
    by apply IH.
Qed.

Lemma all_space_starts s : starts_space s = false → s ≠ EmptyString → all_space s = false.
Proof.
  intros Hs Hne. destruct s as [|a r]; [done|].
  cbn [starts_space all_space] in *.
  apply orb_false_iff in Hs as [-> Hs]. destruct r as [|b r2]; [done|].
  apply orb_false_iff in Hs as [-> Hs]. destruct r2 as [|c r3]; [done|].
  by rewrite Hs.
Qed.

Lemma trim_start_all_space a b : all_space a = true → trim_start (a +:+ b) = trim_start b.
Proof.
  remember (String.length a) as n eqn:Hn. revert a Hn.
  induction (lt_wf n) as [n _ IH]. intros a -> Ha.
  destruct a as [|x a]; [done|].
  rewrite append_cons. cbn [all_space trim_start] in *.
  destruct (is_space x).
  { eapply IH; [|done..]. simpl. lia. }
  destruct a as [|y a]; [done|]. rewrite append_cons.
  destruct (is_space2 x y).
  { eapply IH; [|done..]. simpl. lia. }
  destruct a as [|z a]; [done|]. rewrite append_cons.
  destruct (is_space3 x y z); [|done].
  eapply IH; [|done..]. simpl. lia.
Qed.

(** [trim] cuts nothing out of a word that a one-byte character follows. *)
Lemma trim_end_no_space_app a sep rest :
  (N_of_ascii sep < 128)%N → no_space a = true →
  trim_end (a +:+ String sep rest) = a +:+ trim_end (String sep rest).
Proof.
  intros Hlow Ha. induction a as [|x a IH]; [done|].
  pose proof Ha as [_ Ha']%no_space_cons.
  assert (all_space (String x a +:+ String sep rest) = false) as Hall.
  { apply all_space_starts; [by apply starts_space_before|done]. }
  rewrite append_cons in *. cbn [trim_end]. rewrite Hall, (IH Ha').
  by rewrite append_cons.
Qed.

(** The second word of a trimmed frame line. *)
Lemma frame_second_word frame loc :
  no_space frame = true → frame ≠ EmptyString →
  ∃ rest, split " " (trim_end ("at " +:+ frame +:+ String " " loc))
          = "at" :: frame :: rest.
Proof.
  intros Hns Hne.
  assert (count_char " " frame = 0) as Hc by by apply no_space_count.
  change ("at " +:+ frame +:+ String " " loc)
    with ("at" +:+ String " " (frame +:+ String " " loc)).
  rewrite (trim_end_no_space_app "at") by done.
  assert (all_space (String " " (frame +:+ String " " loc)) = false) as Hall.
  { change (all_space (String " " (frame +:+ String " " loc)))
      with (all_space (frame +:+ String " " loc)).
    apply all_space_starts; [by apply starts_space_before|by destruct frame]. }
  cbn [trim_end]. rewrite Hall. clear Hall.
  rewrite (trim_end_no_space_app frame) by done.
  rewrite split_app_sep by done.
  destruct (all_space (String " " loc)) eqn:Hloc.
  - exists []. cbn [trim_end]. rewrite Hloc, append_empty_r.
    by rewrite split_sep_free.
  - exists (split " " (trim_end loc)). cbn [trim_end]. rewrite Hloc.
    by rewrite split_app_sep.
Qed.

(** X19. When the introspection throws: without a [stack], with a stack of fewer
    than four lines, and with a fourth line that, trimmed of the white space
    and line terminators of ECMAScript, has no space (U+0020).  In every
    other case it returns a label (possibly [undefined]). *)
Theorem infer_action_name_throws (s : string) :
  infer_action_name None = Throw "TypeError"
  ∧ ((count_char "010" s < 3)%nat → infer_action_name (Some s) = Throw "TypeError")
  ∧ ((3 ≤ count_char "010" s)%nat →
     ∃ line, split "010" s !! 3 = Some line
             ∧ (infer_action_name (Some s) = Throw "TypeError"
                ↔ count_char " " (trim line) = 0)).
Proof.
  split; [done|]. unfold infer_action_name. split.
  - intros Hlt.
    assert (split "010" s !! 3 = None) as ->; [|done].
    apply lookup_ge_None. rewrite split_length. lia.
  - intros Hge.
    destruct (split "010" s !! 3) as [line|] eqn:E.
    + exists line. split; [done|].
      destruct (split " " (trim line) !! 1) as [frame|] eqn:E1.
      * split; [done|]. intros Hc.
        apply lookup_lt_Some in E1. rewrite split_length in E1. lia.
      * split; [|done]. intros _.
        apply lookup_ge_None in E1. rewrite split_length in E1. lia.
    + apply lookup_ge_None in E. rewrite split_length in E. lia.
Qed.

(** X20. The label found on a stack in the usual format: when the fourth line is
    an indented [at Class.method location], the label is [method]. *)
Theorem infer_action_name_frame (l0 l1 l2 indent cls meth loc : string)
    (more : list string) :
  count_char "010" l0 = 0 → count_char "010" l1 = 0 → count_char "010" l2 = 0 →
  all_space indent = true → count_char "010" indent = 0 →
  no_space cls = true → count_char "." cls = 0 →
  no_space meth = true → count_char "." meth = 0 →
  count_char "010" loc = 0 →
  infer_action_name
    (Some (join "010"
             (l0 :: l1 :: l2
              :: (indent +:+ "at " +:+ (cls +:+ "." +:+ meth) +:+ " " +:+ loc)
              :: more)))
  = Ok (Some meth).
Proof.
  intros H0 H1 H2 Hind Hindnl Hcls Hclsdot Hmeth Hmethdot Hloc.
  set (frame := cls +:+ "." +:+ meth).
  set (line := indent +:+ "at " +:+ frame +:+ " " +:+ loc).
  assert (no_space frame = true) as Hframe.
  { unfold frame. change (cls +:+ "." +:+ meth) with (cls +:+ String "." meth).
    by apply no_space_app_sep. }
  assert (frame ≠ EmptyString) as Hne by (unfold frame; by destruct cls).
  assert (count_char "010" line = 0) as Hline.
  { unfold line. rewrite count_char_app, Hindnl.
    change ("at " +:+ frame +:+ " " +:+ loc)
      with ("at " +:+ (frame +:+ String " " loc)).
    rewrite count_char_app, count_char_app, (no_space_count _ _ Hframe) by done.
    simpl. by rewrite Hloc. }
  unfold infer_action_name.
  change (join "010" (l0 :: l1 :: l2 :: line :: more))
    with (l0 +:+ String "010" (l1 +:+ String "010" (l2 +:+ String "010"
            (join "010" (line :: more))))).
  rewrite !split_app_sep by done.
  destruct (split_join_head "010" line more Hline) as (rest & ->).
  cbn [lookup list_lookup]. unfold trim, line.
  rewrite trim_start_all_space by done.
  change (trim_start ("at " +:+ frame +:+ " " +:+ loc))
    with ("at " +:+ frame +:+ String " " loc).
  destruct (frame_second_word frame loc Hframe Hne) as (rest' & ->).
  cbn [lookup list_lookup]. unfold frame.
  change (cls +:+ "." +:+ meth) with (cls +:+ String "." meth).
  rewrite split_app_sep by done. by rewrite split_sep_free.
Qed.

Lemma infer_action_name_frame_witness :
  infer_action_name
    (Some (join "010"
             ["Error"; "    at CounterStore.devToolSend (store.ts:152:28)";
              "    at CounterStore.setState (store.ts:127:14)";
              "    " +:+ "at " +:+ ("CounterStore" +:+ "." +:+ "increment")
                +:+ " " +:+ "(counter.ts:9:10)";
              "    at HTMLButtonElement.onclick (app.ts:3:1)"]))
  = Ok (Some "increment").
Proof.
  apply (infer_action_name_frame "Error"
           "    at CounterStore.devToolSend (store.ts:152:28)"
           "    at CounterStore.setState (store.ts:127:14)"
           "    " "CounterStore" "increment" "(counter.ts:9:10)"
           ["    at HTMLButtonElement.onclick (app.ts:3:1)"]);
    reflexivity.
Defined.

(** ** Snapshot, stream and side channels over a run *)

Lemma localStorage_forward en n l s e : localStorage (forward en n l s e) = localStorage e.
Proof.
  unfold forward, DevTool_send. destruct en; [|done].
  cbn [devTool emit]. by destruct (isActiveDevtool (devTool e)).
Qed.

Lemma devTool_forward_off en n l s e :
  en = false ∨ isActiveDevtool (devTool e) = false →
  devTool (forward en n l s e) = devTool e.
Proof.
  unfold forward, DevTool_send. destruct en; [|done]. intros [?|Hoff]; [done|].
  cbn [devTool emit]. by rewrite Hoff.
Qed.

Lemma step_side_channels o this e :
  (localStorageIsEnabled this = false →
   localStorage (step o (this, e)).2 = localStorage e)
  ∧ (devToolIsEnabled this = false ∨ isActiveDevtool (devTool e) = false →
     devTool (step o (this, e)).2 = devTool e).
Proof.
  destruct (op_cases o this) as [(f & a & st & Hred & _)|[[f ->]|[f ->]]].
  - rewrite (step_write _ _ _ _ _ _ Hred).
    destruct (merged this f (mem e)) as [h1 ob]. cbv zeta.
    destruct (label_ok _ _ _); [|done].
    rewrite publish_eq. cbn [snd localStorage devTool]. split.
    + intros ->. unfold persist. by rewrite localStorage_forward.
    + intros Hoff. rewrite devTool_persist. by rewrite devTool_forward_off.
  - rewrite step_select. destruct (isStopped this); [done|].
    by destruct (observer_next _ _ _ _).
  - by rewrite step_caller.
Qed.

(** X21. A collaborator that is off is never touched: over any run, a store with
    persistence disabled leaves the storage as it was, and a store with the
    dev tool disabled, or on a page without an active extension session,
    leaves the dev tool as it was. *)
Theorem disabled_collaborators_untouched (ops : list op) (this : store) (e : env) :
  (localStorageIsEnabled this = false →
   localStorage (run ops (this, e)).2 = localStorage e)
  ∧ (devToolIsEnabled this = false ∨ isActiveDevtool (devTool e) = false →
     devTool (run ops (this, e)).2 = devTool e).
Proof.
  induction ops as [|o ops IH] using rev_ind; [done|].
  rewrite run_snoc.
  destruct (run_set_subject ops this e) as (v1 & obs1 & Hrun).
  destruct (run ops (this, e)) as [s1 e1]. cbn [fst snd] in *.
  assert (localStorageIsEnabled s1 = localStorageIsEnabled this) as Hls by by subst s1.
  assert (devToolIsEnabled s1 = devToolIsEnabled this) as Hdt by by subst s1.
  clear Hrun.
  destruct IH as [IH1 IH2]. destruct (step_side_channels o s1 e1) as [H1 H2].
  split.
  - intros Hoff. rewrite H1 by congruence. by apply IH1.
  - intros Hoff. rewrite H2; [by apply IH2|].
    rewrite Hdt, (IH2 Hoff). exact Hoff.
Qed.

Lemma step_published o this e :
  ∃ pub, transitions (trace (step o (this, e)).2) = transitions (trace e) ++ pub
         ∧ state_ (step o (this, e)).1 = default (state_ this) (last pub).
Proof.
  destruct (op_cases o this) as [(f & a & st & Hred & _)|[[f ->]|[f ->]]].
  - rewrite (step_write _ _ _ _ _ _ Hred).
    destruct (merged this f (mem e)) as [h1 ob]. cbv zeta.
    destruct (label_ok _ _ _).
    + rewrite publish_eq. cbn [fst snd trace state_ set_subject].
      exists [VRef (List.length h1)]. split; [|done].
      rewrite trace_persist, trace_forward, !transitions_app.
      by rewrite transitions_forward, transitions_persist, !app_nil_r.
    + exists []. by rewrite app_nil_r.
  - rewrite step_select. destruct (isStopped this).
    { exists []. by rewrite app_nil_r. }
    destruct (observer_next _ _ _ _).
    exists []. by rewrite app_nil_r.
  - rewrite step_caller. exists []. by rewrite app_nil_r.
Qed.

(** X22. Snapshot and stream agree: over any run, the states published to the
    subject are added to the trace in order, and [getCurrentState()] returns
    the last of them, or the state before the run when none was published. *)
Theorem getCurrentState_is_last_published (ops : list op) (this : store) (e : env) :
  ∃ published,
    transitions (trace (run ops (this, e)).2) = transitions (trace e) ++ published
    ∧ getCurrentState (run ops (this, e)).1
      = default (getCurrentState this) (last published).
Proof.
  unfold getCurrentState.
  induction ops as [|o ops IH] using rev_ind.
  - exists []. by rewrite app_nil_r.
  - rewrite run_snoc. destruct IH as (p1 & Ht1 & Hs1).
    destruct (run ops (this, e)) as [s1 e1]. cbn [fst snd] in *.
    destruct (step_published o s1 e1) as (p2 & Ht2 & Hs2).
    exists (p1 ++ p2). split.
    + by rewrite Ht2, Ht1, app_assoc.
    + rewrite Hs2, Hs1, last_app. by destruct (last p2).
Qed.

(** X23. On a store that has not been destroyed, a new subscription is handed
    the projection of the current state at once, and only that: nothing of
    the states published before.  Subscribing changes neither the state nor
    any side channel, and leaves the earlier subscriptions as they are.  On a
    store that [ngOnDestroy] has completed, a new subscription is handed
    nothing: the selector is not run, and the store, the heap and the side
    channels are as they were. *)
Theorem selectState_first_delivery (f : option jsfun) (this : store) (e : env) :
  if isStopped this
  then selectState f this e = (Ok this, e)
  else ∃ this' e',
    selectState f this e = (Ok this', e')
    ∧ observers this'
      = observers this
        ++ [Subscriber f
              (Some (apply_selector (isArray this) f (getCurrentState this) (mem e)).1)
              [(apply_selector (isArray this) f (getCurrentState this) (mem e)).1]]
    ∧ getCurrentState this' = getCurrentState this
    ∧ isStopped this' = false
    ∧ mem e' = (apply_selector (isArray this) f (getCurrentState this) (mem e)).2
    ∧ trace e' = trace e
    ∧ localStorage e' = localStorage e
    ∧ devTool e' = devTool e.
Proof.
  unfold selectState. destruct (isStopped this) eqn:Hrun; [done|].
  unfold bind, lift_heap, ret, observer_next, getCurrentState.
  cbn [selectFn].
  destruct (apply_selector (isArray this) f (state_ this) (mem e)) as [v h1].
  eexists _, _. split; [done|]. by cbn.
Qed.

(** ** The dev-tool bridge on its own *)

(** X24. The bridge is active exactly when the page has the extension and its
    [connect] returned a session.  Only then is [init] called (once, with the
    empty aggregate), and only then does [send] reach the extension and
    report [true]; otherwise [send] reports [false] and changes nothing. *)
Theorem DevTool_active_iff_connected (globalDevtools : option bool) (now : Z)
    (name : string) (label : option string) (state : value)
    (h : heap) (storage : gmap string tree) (tr : list event) :
  let d := (DevTool_constructor globalDevtools now).1 in
  (DevTool_isActive d = true ↔ globalDevtools = Some true)
  ∧ (DevTool_constructor globalDevtools now).2
    = (if DevTool_isActive d then [EvExtInit ∅] else [])
  ∧ (DevTool_send name label state (Env h d storage tr)).1 = Ok (DevTool_isActive d)
  ∧ (DevTool_isActive d = false →
     (DevTool_send name label state (Env h d storage tr)).2 = Env h d storage tr).
Proof.
  destruct globalDevtools as [[]|]; cbn; repeat split; congruence.
Qed.

(** X25. The aggregate the extension is sent grows store by store: after a send
    for one store and a send for another, it holds the latest state of both;
    two sends under the same name keep the later state only. *)
Theorem DevTool_send_accumulates (n1 n2 : string) (l1 l2 : option string)
    (s1 s2 : value) (e : env) :
  isActiveDevtool (devTool e) = true →
  let e2 := (DevTool_send n2 l2 s2 (DevTool_send n1 l1 s1 e).2).2 in
  baseState (devTool e2) !! n2 = Some s2
  ∧ (n1 ≠ n2 → baseState (devTool e2) !! n1 = Some s1)
  ∧ (∀ n, n ≠ n1 → n ≠ n2 → baseState (devTool e2) !! n = baseState (devTool e) !! n)
  ∧ last (trace e2)
    = Some (EvExtSend (n2 +:+ "." +:+ template l2) (baseState (devTool e2))
              (instanceId (devTool e))).
Proof.
  intros Hact. unfold DevTool_send. rewrite Hact.
  cbn [snd devTool emit set_devTool isActiveDevtool baseState instanceId trace].
  split; [by rewrite lookup_insert_eq|]. split; [|split].
  - intros Hne. by rewrite lookup_insert_ne, lookup_insert_eq.
  - intros n H1 H2. by rewrite !lookup_insert_ne.
  - by rewrite last_snoc.
Qed.

Lemma DevTool_send_accumulates_witness :
  let e2 := (DevTool_send "ListStore" (Some "replace") (VRef 1)
               (DevTool_send "CounterStore" None (VRef 0) page).2).2 in
  baseState (devTool e2) !! "ListStore" = Some (VRef 1)
  ∧ ("CounterStore" ≠ "ListStore" → baseState (devTool e2) !! "CounterStore" = Some (VRef 0))
  ∧ (∀ n, n ≠ "CounterStore" → n ≠ "ListStore" →
          baseState (devTool e2) !! n = baseState (devTool page) !! n)
  ∧ last (trace e2)
    = Some (EvExtSend ("ListStore" +:+ "." +:+ template (Some "replace"))
              (baseState (devTool e2)) (instanceId (devTool page))).
Proof.
  apply (DevTool_send_accumulates "CounterStore" "ListStore" None (Some "replace")
           (VRef 0) (VRef 1) page).
  reflexivity.
Defined.
